(** * PathOGiST: the command-line driver [pathogist.py] and the clustering
      contract it drives.

    The driver is embedded as a state-and-exception monad over a world made of
    a file system and a trace of observable events.  The functions of
    [pathogist.io], [pathogist.distance], [pathogist.cluster] and [yaml] that
    the driver calls are parameters of the embedding.  The two solvers of
    [pathogist.cluster] are, besides, modelled from the design document in
    [Module Cluster]. *)

From Stdlib Require Import Ascii String QArith Qabs Lqa.
From stdpp Require Import base gmap strings list sorting countable.

Local Open Scope string_scope.
Local Open Scope list_scope.

(** ** Python values, exceptions and results *)

(** The exceptions the driver and its collaborators can raise.  The last three
    are the error kinds of the design document. *)
Inductive exn : Type :=
  | AssertionError (msg : string)
  | ValueError
  | TypeError
  | KeyError (key : string)
  | AttributeError
  | FileNotFoundError (path : string)
  | SameFileError
  | SystemExit (code : nat)
  | PreconditionError
  | SolverError
  | ConstraintConflictError.

Inductive Result (A : Type) : Type :=
  | Ok (a : A)
  | Raise (e : exn).
Arguments Ok {A} a.
Arguments Raise {A} e.

(** Exit status of the interpreter when [e] reaches the top level. *)
Definition exit_status (e : exn) : nat :=
  match e with
  | SystemExit code => code
  | _ => 1
  end.

(** A value as [yaml.load] builds it, which is also how the dynamically typed
    arguments of the collaborators are passed.  Mapping keys are strings, in
    document order. *)
#[warnings="-register-all"]
Inductive value : Type :=
  | YNull
  | YBool (b : bool)
  | YNum (q : Q)
  | YStr (s : string)
  | YList (items : list value)
  | YMap (entries : list (string * value)).

(** A [pandas.DataFrame]: row labels, column labels and the cells by row. *)
Record DataFrame (A : Type) : Type := mkFrame {
  index : list string;
  columns : list string;
  cells : list (list A)
}.
Arguments mkFrame {A} index columns cells.
Arguments index {A} d.
Arguments columns {A} d.
Arguments cells {A} d.

(** A dissimilarity matrix, and a clustering in the assignment format: one
    row per sample, whose first cell is the cluster label. *)
Abbreviation Frame := (DataFrame Q).
Abbreviation Clustering := (DataFrame nat).

(** A [dict] / [collections.OrderedDict] with string keys: the items in
    insertion order, no key twice. *)
Definition odict (A : Type) : Type := list (string * A).

Definition od_get {A} (d : odict A) (k : string) : option A :=
  snd <$> List.find (fun kv => String.eqb (fst kv) k) d.

(** [d[k] = v]: a key already present keeps its place and takes the new
    value, a new key goes last. *)
Fixpoint od_set {A} (d : odict A) (k : string) (v : A) : odict A :=
  match d with
  | [] => [(k, v)]
  | (k', v') :: d' =>
      if String.eqb k' k then (k', v) :: d' else (k', v') :: od_set d' k v
  end.

Definition od_keys {A} (d : odict A) : list string := map fst d.

(** * The solvers of [pathogist.cluster], from the design document *)

Module Cluster.

(** Modelled from the spec: the constraint model of sections 4.2 to 4.4; the
    repository's [pathogist/cluster.py] is not among the sources.  Samples are
    numbered by their position in the sample list.  There is one 0/1 variable
    [same(i,j)] for every pair [i < j]; an assignment lists the pairs whose
    variable is 1. *)
Definition assignment : Type := list (nat * nat).

Definition pairs (n : nat) : list (nat * nat) :=
  flat_map (fun i => map (pair i) (seq (S i) (n - S i))) (seq 0 n).

Definition triples (n : nat) : list (nat * nat * nat) :=
  flat_map (fun i =>
    flat_map (fun j => map (fun k => (i, j, k)) (seq 0 n)) (seq 0 n)) (seq 0 n).

Definition pair_eqb (p q : nat * nat) : bool :=
  (fst p =? fst q)%nat && (snd p =? snd q)%nat.

Definition same (E : assignment) (i j : nat) : bool :=
  (i =? j)%nat || existsb (pair_eqb (Nat.min i j, Nat.max i j)) E.

(** Modelled from the spec: the transitivity constraint of section 4.2,
    [same(i,j) + same(j,k) - same(i,k) <= 1]; the rotations are the other
    orderings of the triple. *)
Definition triangle_ok (E : assignment) (t : nat * nat * nat) : bool :=
  let '(i, j, k) := t in
  (Z.b2z (same E i j) + Z.b2z (same E j k) - Z.b2z (same E i k) <=? 1)%Z.

(** Every assignment of the pair variables, the assignments that leave the
    first pair at 0 before those that set it to 1. *)
Fixpoint sublists {A} (l : list A) : list (list A) :=
  match l with
  | [] => [[]]
  | x :: r => sublists r ++ map (cons x) (sublists r)
  end.

Definition Qltb (x y : Q) : bool := negb (Qle_bool y x).

Definition Qsum (l : list Q) : Q := fold_right Qplus 0%Q l.

Fixpoint argmin {A} (f : A -> Q) (best : A) (l : list A) : A :=
  match l with
  | [] => best
  | x :: r => if Qltb (f x) (f best) then argmin f x r else argmin f best r
  end.

(** Modelled from the spec: the optimization backend of section 4.3 in its
    exact form: among the assignments that satisfy the constraints, one of
    least objective, the earliest in the enumeration on ties. *)
Definition minimize (n : nat) (feasible : assignment -> bool)
    (objective : assignment -> Q) : option assignment :=
  match List.filter feasible (sublists (pairs n)) with
  | [] => None
  | E :: r => Some (argmin objective E r)
  end.

(** Modelled from the spec: the decoding of section 4.3: the pairs at 1 are
    the edges of a graph on the samples, each connected component is one
    cluster, labelled by its least sample. *)
Definition grow (E : assignment) (n : nat) (S : list nat) : list nat :=
  List.filter (fun j => existsb (fun s => same E s j) S) (seq 0 n).

Definition component (E : assignment) (n i : nat) : list nat :=
  Nat.iter n (grow E n) [i].

Definition label (E : assignment) (n i : nat) : nat :=
  hd i (component E n i).

Definition decode (samples : list string) (E : assignment) : Clustering :=
  let n := length samples in
  mkFrame samples ["Cluster"] (map (fun i => [label E n i]) (seq 0 n)).

(** Position of a sample in a list of samples. *)
Fixpoint position (s : string) (l : list string) : option nat :=
  match l with
  | [] => None
  | x :: r => if String.eqb x s then Some 0%nat else S <$> position s r
  end.

(** The label a clustering gives to a sample. *)
Definition label_of (c : Clustering) (s : string) : option nat :=
  i ← position s (index c); row ← cells c !! i; head row.

(** The clusters of a clustering: the samples grouped by label, in the order
    of the rows. *)
Definition members (c : Clustering) (l : nat) : list string :=
  List.filter (fun s => bool_decide (label_of c s = Some l)) (index c).

Definition blocks (c : Clustering) : list (list string) :=
  map (members c) (remove_dups (omap (label_of c) (index c))).

(** The joined pairs form an equivalence on the first [n] samples ([same] is
    reflexive and symmetric as it is defined). *)
Definition transitive (E : assignment) (n : nat) : Prop :=
  forall i j k, (i < n)%nat -> (j < n)%nat -> (k < n)%nat ->
    same E i j = true -> same E j k = true -> same E i k = true.

(** *** Correlation clustering (sections 4.2 and 4.3) *)

(** Dissimilarity of the samples at positions [i] and [j]. *)
Definition dist (m : Frame) (i j : nat) : Q :=
  nth (Nat.max i j) (nth (Nat.min i j) (cells m) []) 0%Q.

(** Modelled from the spec: a pair below the threshold is penalised by
    [|value - threshold|] when it is split, a pair at or above it by the same
    amount when it is joined. *)
Definition penalty (v theta : Q) (joined : bool) : Q :=
  if Qltb v theta
  then (if joined then 0 else Qabs (v - theta))%Q
  else (if joined then Qabs (v - theta) else 0)%Q.

Definition correlation_objective (m : Frame) (theta : Q) (n : nat)
    (E : assignment) : Q :=
  Qsum (map (fun p => penalty (dist m (fst p) (snd p)) theta
                        (same E (fst p) (snd p))) (pairs n)).

(** Modelled from the spec: without the all-constraints flag only the triples
    whose three pairs do not all lie on one side of the threshold are
    constrained. *)
Definition mixed (m : Frame) (theta : Q) (t : nat * nat * nat) : bool :=
  let '(i, j, k) := t in
  let s := fun a b => Qltb (dist m a b) theta in
  negb ((s i j && s j k && s i k) || (negb (s i j) && negb (s j k) && negb (s i k))).

Definition constrained (m : Frame) (theta : Q) (use_all : bool) (n : nat)
    : list (nat * nat * nat) :=
  if use_all then triples n else List.filter (mixed m theta) (triples n).

(** Modelled from the spec: [solve(matrix, threshold, use_all_constraints)]
    of section 4.3, the body of [pathogist.cluster.correlation]. *)
Definition correlation (m : Frame) (theta : Q) (use_all : bool)
    : Result Clustering :=
  let samples := columns m in
  let n := length samples in
  match minimize n (fun E => forallb (triangle_ok E) (constrained m theta use_all n))
                 (correlation_objective m theta n) with
  | Some E => Ok (decode samples E)
  | None => Raise SolverError
  end.

(** Modelled from the spec: the tie-break of section 4.3, by lexicographic
    sample order.  The pair variables are taken in that order, (0,1), (0,2),
    ..., (1,2), ...; [values n E] lists their values under the assignment
    [E], and of two assignments the one that leaves apart the first pair on
    which they differ goes first. *)
Definition values_on (l : list (nat * nat)) (E : assignment) : list bool :=
  map (fun p => same E (fst p) (snd p)) l.

Definition values (n : nat) (E : assignment) : list bool :=
  values_on (pairs n) E.

Fixpoint lex_le (u v : list bool) : bool :=
  match u, v with
  | a :: u', b :: v' => if Bool.eqb a b then lex_le u' v' else b
  | _, _ => true
  end.

(** Modelled from the spec: what section 4.3 asks of the backend in its
    exact form, whatever way it searches: an assignment of the pair
    variables that satisfies the constraints and whose objective is least
    among those that do. *)
Definition optimum (n : nat) (feasible : assignment -> bool)
    (objective : assignment -> Q) (E : assignment) : Prop :=
  In E (sublists (pairs n)) /\ feasible E = true /\
  forall E', In E' (sublists (pairs n)) -> feasible E' = true ->
    (objective E <= objective E')%Q.

(** Modelled from the spec: the optimum that the tie-break keeps. *)
Definition chosen (n : nat) (feasible : assignment -> bool)
    (objective : assignment -> Q) (E : assignment) : Prop :=
  optimum n feasible objective E /\
  forall E', optimum n feasible objective E' ->
    lex_le (values n E) (values n E') = true.

(** Modelled from the spec: [c] is a clustering that a call of
    [solve(matrix, threshold, use_all_constraints)] may return under
    section 4.3: the decoding of an optimum kept by the tie-break. *)
Definition solves (m : Frame) (theta : Q) (use_all : bool) (c : Clustering)
    : Prop :=
  let n := length (columns m) in
  exists E,
    chosen n (fun E => forallb (triangle_ok E) (constrained m theta use_all n))
      (correlation_objective m theta n) E /\
    c = decode (columns m) E.

(** Modelled from the spec: the same without the tie-break: the decoding of
    any optimum. *)
Definition solves_untied (m : Frame) (theta : Q) (use_all : bool)
    (c : Clustering) : Prop :=
  let n := length (columns m) in
  exists E,
    optimum n (fun E => forallb (triangle_ok E) (constrained m theta use_all n))
      (correlation_objective m theta n) E /\
    c = decode (columns m) E.

(** *** Consensus clustering (section 4.4) *)

Definition label_at (p : Clustering) (samples : list string) (i : nat)
    : option nat :=
  s ← samples !! i; label_of p s.

(** The decision of a modality on a pair: it joins the pair, or separates
    it. *)
Definition joins (p : Clustering) (samples : list string) (i j : nat) : bool :=
  match label_at p samples i, label_at p samples j with
  | Some a, Some b => (a =? b)%nat
  | _, _ => false
  end.

Definition separates (p : Clustering) (samples : list string) (i j : nat)
    : bool :=
  match label_at p samples i, label_at p samples j with
  | Some a, Some b => negb (a =? b)%nat
  | _, _ => false
  end.

(** Every sample has a label in the clustering. *)
Definition covers (p : Clustering) (samples : list string) : bool :=
  forallb (fun s => bool_decide (is_Some (label_of p s))) samples.

(** Modelled from the spec: the weighted disagreement term of one modality on
    one pair: the weight when the final decision differs from the modality's
    own, nothing otherwise. *)
Definition disagreement (w : Q) (p : Clustering) (samples : list string)
    (E : assignment) (ij : nat * nat) : Q :=
  if Bool.eqb (same E (fst ij) (snd ij)) (joins p samples (fst ij) (snd ij))
  then 0%Q else w.

Definition consensus_objective (w : string -> Q)
    (clusterings : odict Clustering) (samples : list string)
    (E : assignment) : Q :=
  Qsum (map (fun mp =>
    Qsum (map (disagreement (w (fst mp)) (snd mp) samples E)
              (pairs (length samples)))) clusterings).

(** Modelled from the spec: the hard constraints of section 4.4: a pair
    that a fine modality separates may not be joined. *)
Definition hard_ok (clusterings : odict Clustering) (fine : list string)
    (samples : list string) (E : assignment) : bool :=
  forallb (fun mp =>
    negb (bool_decide (fst mp ∈ fine)) ||
    forallb (fun ij => negb (separates (snd mp) samples (fst ij) (snd ij) &&
                             same E (fst ij) (snd ij)))
            (pairs (length samples))) clusterings.

(** The sample set of a consensus solve: that of the first clustering. *)
Definition consensus_samples (clusterings : odict Clustering) : list string :=
  match clusterings with
  | [] => []
  | (_, p) :: _ => index p
  end.

(** Modelled from the spec: [solve(matrices_by_modality,
    partitions_by_modality, fine_modality_names)] of section 4.4, the body of
    [pathogist.cluster.consensus].  The design leaves the weights of the
    modalities open: [weight] gives them from the matrices and the modality
    name.  Every triple is constrained. *)
Definition consensus (weight : odict Frame -> string -> Q)
    (distances : odict Frame) (clusterings : odict Clustering)
    (fine : list string) : Result Clustering :=
  let samples := consensus_samples clusterings in
  let n := length samples in
  if negb (forallb (fun mp => covers (snd mp) samples) clusterings)
  then Raise PreconditionError
  else
    match minimize n
            (fun E => forallb (triangle_ok E) (triples n) &&
                      hard_ok clusterings fine samples E)
            (consensus_objective (weight distances) clusterings samples) with
    | Some E => Ok (decode samples E)
    | None => Raise ConstraintConflictError
    end.

End Cluster.

(** * The driver [pathogist.py] *)

(** ** Text *)

(** Text is a sequence of code points below 256.  [str.isspace] holds there
    for the code points 9 to 13, 28 to 32, 133 and 160. *)
Definition is_space (c : ascii) : bool :=
  let n := nat_of_ascii c in
  ((9 <=? n) && (n <=? 13))%nat || ((28 <=? n) && (n <=? 32))%nat ||
  (n =? 133)%nat || (n =? 160)%nat.

(** [s.rstrip()] *)
Fixpoint rstrip (s : string) : string :=
  match s with
  | EmptyString => EmptyString
  | String c r =>
      match rstrip r with
      | EmptyString => if is_space c then EmptyString else String c EmptyString
      | r' => String c r'
      end
  end.

(** [s.split(sep)] for a separator of one character: the text is cut at
    every occurrence. *)
Fixpoint split_on (sep : ascii) (s : string) : list string :=
  match s with
  | EmptyString => [EmptyString]
  | String c r =>
      if Ascii.eqb c sep then EmptyString :: split_on sep r
      else match split_on sep r with
           | h :: t => String c h :: t
           | [] => [String c EmptyString]
           end
  end.

Fixpoint count_char (c : ascii) (s : string) : nat :=
  match s with
  | EmptyString => 0
  | String x r => (if Ascii.eqb x c then 1 else 0) + count_char c r
  end.

(** The lines a text file yields when it is iterated.  [open(path,'r')]
    opens the file in text mode with universal newlines: a line ends at a
    line feed, at a carriage return, or at a carriage return followed by a
    line feed, and each of the three is handed over as one line feed.  Every
    line keeps its line end, and a text that ends in a line end has no empty
    last line. *)
Fixpoint readlines (s : string) : list string :=
  match s with
  | EmptyString => []
  | String c r =>
      if Ascii.eqb c "010"%char then
        String "010"%char EmptyString :: readlines r
      else if Ascii.eqb c "013"%char then
        match r with
        | String c' r' =>
            if Ascii.eqb c' "010"%char then
              String "010"%char EmptyString :: readlines r'
            else String "010"%char EmptyString :: readlines r
        | EmptyString => [String "010"%char EmptyString]
        end
      else match readlines r with
           | [] => [String c EmptyString]
           | h :: t => String c h :: t
           end
  end.

(** The three line ends of a text file: line feed, carriage return and line
    feed, carriage return. *)
Definition line_ends : list string :=
  [String "010"%char EmptyString;
   String "013"%char (String "010"%char EmptyString);
   String "013"%char EmptyString].

(** A text that holds no line end. *)
Definition one_line (l : string) : Prop :=
  count_char "010"%char l = 0%nat /\ count_char "013"%char l = 0%nat.

(** The text of a file whose lines are [ls], each ended by [eol]. *)
Definition file_text (eol : string) (ls : list string) : string :=
  fold_right (fun l text => (l ++ eol ++ text)%string) EmptyString ls.

Definition str_le (a b : string) : Prop := String.leb a b = true.

#[global] Instance str_le_dec (a b : string) : Decision (str_le a b).
Proof. unfold str_le. apply _. Defined.

(** [sorted(l)] on a list of strings. *)
Definition sorted (l : list string) : list string := merge_sort str_le l.

(** ** Values *)

(** The hashable scalars, as members of a [set].  A number is kept as its
    numerator and denominator. *)
Inductive atom : Type :=
  | AStr (s : string)
  | ANum (num : Z) (den : positive)
  | ABool (b : bool)
  | ANull.

#[global] Instance atom_eq_dec : EqDecision atom.
Proof. solve_decision. Defined.

#[global] Instance atom_countable : Countable atom.
Proof.
  refine (inj_countable'
    (fun a => match a with
              | AStr s => inl s
              | ANum n d => inr (inl (n, d))
              | ABool b => inr (inr (inl b))
              | ANull => inr (inr (inr tt))
              end)
    (fun x => match x with
              | inl s => AStr s
              | inr (inl (n, d)) => ANum n d
              | inr (inr (inl b)) => ABool b
              | inr (inr (inr _)) => ANull
              end) _).
  intros []; reflexivity.
Defined.

(** [v[k]] for a string [k]. *)
Definition getitem (v : value) (k : string) : Result value :=
  match v with
  | YMap entries =>
      match od_get entries k with
      | Some x => Ok x
      | None => Raise (KeyError k)
      end
  | _ => Raise TypeError
  end.

(** [v.keys()] *)
Definition keys (v : value) : Result (list string) :=
  match v with
  | YMap entries => Ok (od_keys entries)
  | _ => Raise AttributeError
  end.

(** [hash(v)], as far as [set] needs it: lists and mappings are not
    hashable. *)
Definition hashable (v : value) : Result atom :=
  match v with
  | YNull => Ok ANull
  | YBool b => Ok (ABool b)
  | YNum q => Ok (ANum (Qnum q) (Qden q))
  | YStr s => Ok (AStr s)
  | YList _ | YMap _ => Raise TypeError
  end.

Fixpoint set_of_atoms (l : list value) : Result (gset atom) :=
  match l with
  | [] => Ok ∅
  | v :: r =>
      match hashable v with
      | Raise e => Raise e
      | Ok a =>
          match set_of_atoms r with
          | Raise e => Raise e
          | Ok s => Ok ({[a]} ∪ s)
          end
      end
  end.

Fixpoint chars (s : string) : list string :=
  match s with
  | EmptyString => []
  | String c r => String c EmptyString :: chars r
  end.

Definition set_of_strings (l : list string) : gset atom :=
  list_to_set (AStr <$> l).

(** [set(v)]: the items of a list, the keys of a mapping, the characters
    of a string; the other scalars are not iterable. *)
Definition py_set (v : value) : Result (gset atom) :=
  match v with
  | YList items => set_of_atoms items
  | YMap entries => Ok (set_of_strings (od_keys entries))
  | YStr s => Ok (set_of_strings (chars s))
  | YNull | YBool _ | YNum _ => Raise TypeError
  end.

(** [len(set(l))] for a list [l] of [set] objects.  Building the set hashes
    every item, and a [set] is not hashable: the first item raises
    [TypeError]; only for the empty list there is a result, the empty set. *)
Definition len_set_of_sets (l : list (gset string)) : Result nat :=
  match l with
  | [] => Ok 0%nat
  | _ :: _ => Raise TypeError
  end.

(** [itertools.combinations(l, 2)] *)
Fixpoint combinations2 {A} (l : list A) : list (A * A) :=
  match l with
  | [] => []
  | x :: r => map (pair x) r ++ combinations2 r
  end.

(** ** The world and the monad of the driver *)

Inductive Level : Type := DEBUG | INFO | WARNING.

(** What a run does that can be observed: messages, and the calls into the
    collaborators, each recorded when it is made. *)
Inductive Event : Type :=
  | Log (level : Level) (msg : string)
  | Print (msg : string)
  | CopyFile (src dst : string)
  | OpenRead (path : string)
  | YamlLoad
  | ReadCalls (genotype : string) (path : value)
  | CreateDistance (genotype : string)
  | OpenDistanceFile (path : value)
  | OpenClusteringFile (path : value)
  | MatchDistanceMatrices (distances : odict Frame)
  | Correlation (m : Frame) (threshold all_constraints : value)
  | Consensus (distances : odict Frame) (clusterings : odict Clustering)
              (fine : value)
  | Summarize (consensus : Clustering) (clusterings : odict Clustering)
  | OutputClustering (c : Clustering) (path : value).

Abbreviation Files := (gmap string string).

Record World : Type := mkWorld {
  fs : Files;
  trace : list Event
}.

Definition M (A : Type) : Type := World -> Result A * World.

Definition ret {A} (a : A) : M A := fun w => (Ok a, w).

Definition bind {A B} (m : M A) (k : A -> M B) : M B :=
  fun w => match m w with
           | (Ok a, w') => k a w'
           | (Raise e, w') => (Raise e, w')
           end.

Notation "x <- m ;; k" := (bind m (fun x => k))
  (at level 100, m at next level, right associativity).
Notation "m ;;; k" := (bind m (fun _ => k))
  (at level 100, right associativity).

Definition raise {A} (e : exn) : M A := fun w => (Raise e, w).

Definition lift {A} (r : Result A) : M A := fun w => (r, w).

Definition emit (ev : Event) : M unit :=
  fun w => (Ok tt, mkWorld (fs w) (trace w ++ [ev])).

(** A call into a collaborator that reads the file system. *)
Definition call {A} (ev : Event) (f : Files -> Result A) : M A :=
  emit ev ;;; (fun w => (f (fs w), w)).

(** [assert(cond), msg] *)
Definition py_assert (cond : bool) (msg : string) : M unit :=
  if cond then ret tt else raise (AssertionError msg).

Definition logger_info (msg : string) : M unit := emit (Log INFO msg).
Definition logger_debug (msg : string) : M unit := emit (Log DEBUG msg).
Definition print (msg : string) : M unit := emit (Print msg).

(** [with open(path,'r') as file]: the text of the file. *)
Definition open_read (path : string) : M string :=
  emit (OpenRead path) ;;;
  (fun w => match fs w !! path with
            | Some text => (Ok text, w)
            | None => (Raise (FileNotFoundError path), w)
            end).

(** [shutil.copyfile(src, dst)]: a file is not copied onto itself. *)
Definition copyfile (src dst : string) : M unit :=
  emit (CopyFile src dst) ;;;
  (fun w => match fs w !! src with
            | Some text =>
                if String.eqb src dst then (Raise SameFileError, w)
                else (Ok tt, mkWorld (<[dst := text]> (fs w)) (trace w))
            | None => (Raise (FileNotFoundError src), w)
            end).

(** [for x in l: body], threading the variables the body assigns. *)
Fixpoint for_each {A S} (l : list A) (body : A -> S -> M S) (s : S) : M S :=
  match l with
  | [] => ret s
  | x :: r => s' <- body x s ;; for_each r body s'
  end.

(** [d[k]] on a dictionary. *)
Definition od_item {A} (d : odict A) (k : string) : Result A :=
  match od_get d k with
  | Some x => Ok x
  | None => Raise (KeyError k)
  end.

(** ** The collaborators *)

(** The functions of [pkg_resources], [yaml], [pathogist.io],
    [pathogist.distance] and [pathogist.cluster] that the driver calls.
    [yaml_load] gives [None] when the text is not YAML ([yaml.YAMLError]). *)
Class Collaborators : Type := {
  Calls : Type;
  resource_filename : string -> string;
  yaml_load : string -> option value;
  read_snp_calls : value -> Files -> Result Calls;
  read_mlst_calls : value -> Files -> Result Calls;
  read_cnv_calls : value -> Files -> Result Calls;
  create_snp_distance_matrix : Calls -> Result Frame;
  create_mlst_distance_matrix : Calls -> Result Frame;
  create_cnv_distance_matrix : Calls -> Result Frame;
  open_distance_file : value -> Files -> Result Frame;
  open_clustering_file : value -> Files -> Result Clustering;
  match_distance_matrices : odict Frame -> Result (odict Frame);
  cluster_correlation : Frame -> value -> value -> Result Clustering;
  cluster_consensus :
    odict Frame -> odict Clustering -> value -> Result Clustering;
  summarize_clusterings :
    Clustering -> odict Clustering -> Result Clustering;
  output_clustering : Clustering -> value -> Files -> Result Files
}.

(** ** The subcommands *)

Record AllParam : Type := mkAllParam {
  config : string;
  new_config : bool
}.

Record CorrelationParam : Type := mkCorrelationParam {
  corr_distance_matrix : string;
  corr_threshold : Q;
  corr_output_path : string;
  corr_all_constraints : bool
}.

Record ConsensusParam : Type := mkConsensusParam {
  distance_matrices : string;
  clusterings : string;
  fine_clusterings : string;
  cons_output_path : string;
  cons_all_constraints : bool
}.

Section Driver.

Context `{Collaborators}.

Definition read_genotyping_calls : odict (value -> Files -> Result Calls) :=
  [("SNP", read_snp_calls); ("MLST", read_mlst_calls); ("CNV", read_cnv_calls)].

Definition create_genotype_distance : odict (Calls -> Result Frame) :=
  [("SNP", create_snp_distance_matrix); ("MLST", create_mlst_distance_matrix);
   ("CNV", create_cnv_distance_matrix)].

(** [pathogist.io.output_clustering(c, path)] writes a file. *)
Definition write_clustering (c : Clustering) (path : value) : M unit :=
  emit (OutputClustering c path) ;;;
  (fun w => match output_clustering c path (fs w) with
            | Ok files => (Ok tt, mkWorld files (trace w))
            | Raise e => (Raise e, w)
            end).

(** Lines 42 to 51: the key sets of the configuration and the three
    assertions on them. *)
Definition key_sets (cfg : value)
    : Result (gset atom * gset atom * gset atom * gset atom) :=
  match getitem cfg "distances" with
  | Raise e => Raise e
  | Ok d =>
  match keys d with
  | Raise e => Raise e
  | Ok dk =>
  match getitem cfg "genotyping" with
  | Raise e => Raise e
  | Ok g =>
  match keys g with
  | Raise e => Raise e
  | Ok gk =>
  match getitem cfg "thresholds" with
  | Raise e => Raise e
  | Ok t =>
  match keys t with
  | Raise e => Raise e
  | Ok tk =>
  match getitem cfg "fine_clusterings" with
  | Raise e => Raise e
  | Ok f =>
  match py_set f with
  | Raise e => Raise e
  | Ok fc =>
      Ok (set_of_strings dk, set_of_strings gk, set_of_strings tk, fc)
  end end end end end end end end.

Definition check_config (cfg : value) : M unit :=
  sets <- lift (key_sets cfg) ;;
  let '(distance_keys_set, genotyping_keys_set, threshold_keys_set,
        fine_clusterings_set) := sets in
  py_assert (bool_decide (distance_keys_set ∩ genotyping_keys_set = ∅))
    "'distances' and 'genotyping' have a key in common." ;;;
  py_assert (bool_decide
      (threshold_keys_set = distance_keys_set ∪ genotyping_keys_set))
    "Set of keys in 'thresholds' not equal to the set of keys in 'genotyping' and 'distances'." ;;;
  py_assert (bool_decide
      (fine_clusterings_set ⊆ distance_keys_set ∪ genotyping_keys_set))
    "A value in 'fine_clusterings' does not appear in 'genotyping' or 'distances'.".

(** Lines 53 to 73: the distance matrices are built from the genotyping
    calls or read from file. *)
Definition load_distances (cfg : value) : M (odict Frame) :=
  logger_info "Reading genotyping calls ..." ;;;
  genotyping <- lift (getitem cfg "genotyping") ;;
  genotypes <- lift (keys genotyping) ;;
  calls <- for_each genotypes (fun genotype calls =>
      reader <- lift (od_item read_genotyping_calls genotype) ;;
      g <- lift (getitem cfg "genotyping") ;;
      path <- lift (getitem g genotype) ;;
      c <- call (ReadCalls genotype path) (reader path) ;;
      ret (od_set calls genotype c)) [] ;;
  logger_info "Creating distance matrices ..." ;;;
  distances <- for_each (od_keys calls) (fun genotype distances =>
      create <- lift (od_item create_genotype_distance genotype) ;;
      c <- lift (od_item calls genotype) ;;
      m <- call (CreateDistance genotype) (fun _ => create c) ;;
      ret (od_set distances genotype m)) [] ;;
  logger_info "Reading distance matrices ..." ;;;
  d <- lift (getitem cfg "distances") ;;
  names <- lift (keys d) ;;
  for_each names (fun genotype distances =>
      d <- lift (getitem cfg "distances") ;;
      path <- lift (getitem d genotype) ;;
      m <- call (OpenDistanceFile path) (open_distance_file path) ;;
      ret (od_set distances genotype m)) distances.

(** Lines 75 to 81: the matrices are matched when their sample sets
    differ. *)
Definition align (distances : odict Frame) : M (odict Frame) :=
  let distance_matrix_samples :=
    map (fun kv => list_to_set (columns (snd kv)) : gset string) distances in
  n <- lift (len_set_of_sets distance_matrix_samples) ;;
  if (1 <? n)%nat then
    logger_info "Warning: samples differ across the distance matrices." ;;;
    logger_info "Matching distance matrices ..." ;;;
    call (MatchDistanceMatrices distances)
         (fun _ => match_distance_matrices distances)
  else ret distances.

(** Lines 83 to 100: every matrix is clustered, then the consensus is solved,
    summarized and written. *)
Definition cluster_all (cfg : value) (distances : odict Frame) : M unit :=
  let genotypes := od_keys distances in
  thresholds <- lift (getitem cfg "thresholds") ;;
  all_constraints <- lift (getitem cfg "all_constraints") ;;
  output_path <- lift (getitem cfg "output") ;;
  fine <- lift (getitem cfg "fine_clusterings") ;;
  clusterings <- for_each genotypes (fun genotype clusterings =>
      logger_info ("Clustering " ++ genotype ++ " ...") ;;;
      m <- lift (od_item distances genotype) ;;
      threshold <- lift (getitem thresholds genotype) ;;
      c <- call (Correlation m threshold all_constraints)
                (fun _ => cluster_correlation m threshold all_constraints) ;;
      ret (od_set clusterings genotype c)) [] ;;
  logger_info "Performing consensus clustering ..." ;;;
  consensus_clustering <-
    call (Consensus distances clusterings fine)
         (fun _ => cluster_consensus distances clusterings fine) ;;
  summary_clustering <-
    call (Summarize consensus_clustering clusterings)
         (fun _ => summarize_clusterings consensus_clustering clusterings) ;;
  logger_info "Writing clusterings to file ..." ;;;
  write_clustering summary_clustering output_path.

(** Lines 53 to 100: the pipeline proper. *)
Definition pipeline (cfg : value) : M unit :=
  distances <- load_distances cfg ;;
  distances <- align distances ;;
  cluster_all cfg distances.

(** [run_all(param)] *)
Definition run_all (param : AllParam) : M unit :=
  if new_config param then
    let src_path := resource_filename "pathogist/resources/blank_config.yaml" in
    copyfile src_path (config param) ;;;
    print ("New configuration file written at " ++ config param)
  else
    text <- open_read (config param) ;;
    emit YamlLoad ;;;
    cfg <- match yaml_load text with
           | Some cfg => ret cfg
           | None => print "<class 'yaml.error.YAMLError'>" ;;;
                     raise (SystemExit 1)
           end ;;
    check_config cfg ;;;
    pipeline cfg.

(** [correlation(param)] *)
Definition correlation (param : CorrelationParam) : M unit :=
  logger_debug "Opening distance matrix..." ;;;
  let path := YStr (corr_distance_matrix param) in
  distance_matrix <- call (OpenDistanceFile path) (open_distance_file path) ;;
  logger_debug "Creating and solving correlation clustering problem ... " ;;;
  let threshold := YNum (corr_threshold param) in
  let all_constraints := YBool (corr_all_constraints param) in
  clustering <-
    call (Correlation distance_matrix threshold all_constraints)
         (fun _ => cluster_correlation distance_matrix threshold all_constraints) ;;
  logger_debug "Outputting clustering..." ;;;
  write_clustering clustering (YStr (corr_output_path param)).

(** [name,path = line.rstrip().split('=')] *)
Definition split_entry (line : string) : Result (string * string) :=
  match split_on "="%char (rstrip line) with
  | [name; path] => Ok (name, path)
  | _ => Raise ValueError
  end.

(** Lines 116 and 117, 134 and 135: one line of a batch-list file is split,
    its file opened and stored under its name. *)
Definition load_entry {A} (ev : value -> Event)
    (open_file : value -> Files -> Result A) (line : string) (d : odict A)
    : M (odict A) :=
  entry <- lift (split_entry line) ;;
  let '(name, path) := entry in
  x <- call (ev (YStr path)) (open_file (YStr path)) ;;
  ret (od_set d name x).

(** Lines 114 to 117 and 132 to 135: the loop over the lines of a batch-list
    file. *)
Definition load_entries {A} (ev : value -> Event)
    (open_file : value -> Files -> Result A) (lines : list string)
    : M (odict A) :=
  for_each lines (load_entry ev open_file) [].

(** The lines [ls] are entries [name=path] whose files open: [items] lists
    their names, paths and contents. *)
Definition loads {A} (open_file : value -> Files -> Result A) (files : Files)
    (ls : list string) (items : list (string * string * A)) : Prop :=
  Forall2 (fun line item =>
             split_entry line = Ok (fst (fst item), snd (fst item)) /\
             open_file (YStr (snd (fst item))) files = Ok (snd item))
          ls items.

(** The assignments [d[name] = content], one item after the other. *)
Definition store {A} (items : list (string * string * A)) (d : odict A)
    : odict A :=
  fold_left (fun d item => od_set d (fst (fst item)) (snd item)) items d.

(** Lines 120 to 127 and 138 to 145: the comparison of two of the inputs.
    As in the source, [rows2] is read from [cluster1]. *)
Definition check_pair {A} (d : odict (DataFrame A)) (cluster1 cluster2 : string)
    : M unit :=
  f1 <- lift (od_item d cluster1) ;;
  f2 <- lift (od_item d cluster2) ;;
  let columns1 := sorted (columns f1) in
  let columns2 := sorted (columns f2) in
  py_assert (length columns1 =? length columns2)%nat "" ;;;
  py_assert (bool_decide (columns1 = columns2)) "" ;;;
  let rows1 := sorted (index f1) in
  let rows2 := sorted (index f1) in
  py_assert (length rows1 =? length rows2)%nat "" ;;;
  py_assert (bool_decide (rows1 = rows2)) "".

Definition check_pairs {A} (d : odict (DataFrame A)) : M unit :=
  for_each (combinations2 (od_keys d))
    (fun c _ => check_pair d (fst c) (snd c)) tt.

(** [consensus(param)], lines 112 to 145: the two batch lists are loaded and
    their entries compared two by two. *)
Definition consensus_inputs (param : ConsensusParam)
    : M (odict Frame * odict Clustering) :=
  logger_info "Getting distance matrices ..." ;;;
  text <- open_read (distance_matrices param) ;;
  distances <- load_entries OpenDistanceFile open_distance_file (readlines text) ;;
  check_pairs distances ;;;
  logger_info "Getting clusterings ..." ;;;
  text <- open_read (clusterings param) ;;
  clusterings <-
    load_entries OpenClusteringFile open_clustering_file (readlines text) ;;
  check_pairs clusterings ;;;
  ret (distances, clusterings).

(** [consensus(param)], lines 147 to 157: the fine list is read and the
    solve is run and written. *)
Definition consensus_solve (param : ConsensusParam)
    (distances : odict Frame) (clusterings : odict Clustering) : M unit :=
  logger_info "Getting other metadata ..." ;;;
  text <- open_read (fine_clusterings param) ;;
  let fine := YList (map YStr (map rstrip (readlines text))) in
  logger_info "Creating and solving consensus clustering problem ..." ;;;
  consensus_clustering <-
    call (Consensus distances clusterings fine)
         (fun _ => cluster_consensus distances clusterings fine) ;;
  summary_clustering <-
    call (Summarize consensus_clustering clusterings)
         (fun _ => summarize_clusterings consensus_clustering clusterings) ;;
  logger_info "Writing clusterings to file ..." ;;;
  write_clustering summary_clustering (YStr (cons_output_path param)).

(** [consensus(param)] *)
Definition consensus (param : ConsensusParam) : M unit :=
  inputs <- consensus_inputs param ;;
  consensus_solve param (fst inputs) (snd inputs).

End Driver.

(** ** Events of the computation proper *)

(** The events that read genotyping calls, build or read a distance matrix,
    compute a clustering or write one. *)
Definition computes (ev : Event) : bool :=
  match ev with
  | ReadCalls _ _ | CreateDistance _ | OpenDistanceFile _
  | OpenClusteringFile _ | MatchDistanceMatrices _ | Correlation _ _ _
  | Consensus _ _ _ | Summarize _ _ | OutputClustering _ _ => true
  | Log _ _ | Print _ | CopyFile _ _ | OpenRead _ | YamlLoad => false
  end.

Definition is_consensus (ev : Event) : bool :=
  match ev with
  | Consensus _ _ _ => true
  | _ => false
  end.

(** The events of the alignment step and of the correlation clustering that
    follows it in [run_all]. *)
Definition aligns_or_clusters (ev : Event) : bool :=
  match ev with
  | MatchDistanceMatrices _ | Correlation _ _ _ => true
  | Log _ msg =>
      String.eqb msg "Warning: samples differ across the distance matrices." ||
      String.eqb msg "Matching distance matrices ..."
  | _ => false
  end.

Definition no_alignment (ev : Event) : bool := negb (aligns_or_clusters ev).

(** A computation whose events all satisfy [P], whatever the world. *)
Definition emits_only (P : Event -> bool) {A} (m : M A) : Prop :=
  forall w, exists evs,
    trace (snd (m w)) = trace w ++ evs /\ forallb P evs = true.

(** The sorted column labels of the entry [k] of a dictionary of frames. *)
Definition sorted_columns {A} (d : odict (DataFrame A)) (k : string)
    : list string :=
  match od_get d k with
  | Some f => sorted (columns f)
  | None => []
  end.

(** ** Collaborators for the examples *)

(** A file is parsed by looking its text up in a table. *)
Definition stub_open {A} (table : odict A) (path : value) (files : Files)
    : Result A :=
  match path with
  | YStr p =>
      match files !! p with
      | Some text =>
          match od_get table text with
          | Some x => Ok x
          | None => Raise ValueError
          end
      | None => Raise (FileNotFoundError p)
      end
  | _ => Raise TypeError
  end.

Fixpoint as_names (items : list value) : Result (list string) :=
  match items with
  | [] => Ok []
  | YStr s :: r =>
      match as_names r with
      | Ok l => Ok (s :: l)
      | Raise e => Raise e
      end
  | _ :: _ => Raise TypeError
  end.

(** The solvers are those of [Module Cluster], every modality weighing 1;
    the summary is the consensus clustering itself; a clustering is written
    as the list of its samples. *)
Definition stub (yamls : odict value) (frames : odict Frame)
    (clusts : odict Clustering) : Collaborators := {|
  Calls := Frame;
  resource_filename := fun name => ("/site-packages/" ++ name)%string;
  yaml_load := od_get yamls;
  read_snp_calls := stub_open frames;
  read_mlst_calls := stub_open frames;
  read_cnv_calls := stub_open frames;
  create_snp_distance_matrix := Ok;
  create_mlst_distance_matrix := Ok;
  create_cnv_distance_matrix := Ok;
  open_distance_file := stub_open frames;
  open_clustering_file := stub_open clusts;
  match_distance_matrices := Ok;
  cluster_correlation := fun m threshold all_constraints =>
    match threshold, all_constraints with
    | YNum theta, YBool use_all => Cluster.correlation m theta use_all
    | _, _ => Raise TypeError
    end;
  cluster_consensus := fun distances clusterings fine =>
    match fine with
    | YList items =>
        match as_names items with
        | Ok names =>
            Cluster.consensus (fun _ _ => 1%Q) distances clusterings names
        | Raise e => Raise e
        end
    | _ => Raise TypeError
    end;
  summarize_clusterings := fun c _ => Ok c;
  output_clustering := fun c path files =>
    match path with
    | YStr p => Ok (<[p := String.concat "," (index c)]> files)
    | _ => Raise TypeError
    end
|}.

(** ** Example inputs *)

(** The four-sample scenario of the design document. *)
Definition example_matrix : Frame :=
  mkFrame ["A"; "B"; "C"; "D"] ["A"; "B"; "C"; "D"]
    [[0; 1; 9; 9]; [1; 0; 9; 9]; [9; 9; 0; 1]; [9; 9; 1; 0]]%Q.

Definition example_partition : Clustering :=
  mkFrame ["A"; "B"; "C"; "D"] ["Cluster"] [[0]; [0]; [1]; [1]]%nat.

(** A clustering that separates A from B. *)
Definition fine_partition : Clustering :=
  mkFrame ["A"; "B"; "C"; "D"] ["Cluster"] [[0]; [1]; [2]; [2]]%nat.

(** Three samples of which B is near A and near C, while A and C are far
    apart, each by 1 around the threshold 5. *)
Definition tied_matrix : Frame :=
  mkFrame ["A"; "B"; "C"] ["A"; "B"; "C"] [[0; 4; 6]; [4; 0; 4]; [6; 4; 0]]%Q.

(** The same cells as [example_matrix] under other row labels. *)
Definition relabelled_matrix : Frame :=
  mkFrame ["A"; "B"; "C"; "Z"] ["A"; "B"; "C"; "D"] (cells example_matrix).

(** A matrix over other samples. *)
Definition other_matrix : Frame :=
  mkFrame ["A"; "B"; "E"] ["A"; "B"; "E"]
    [[0; 1; 9]; [1; 0; 9]; [9; 9; 0]]%Q.

(** A clustering of five samples. *)
Definition five_partition : Clustering :=
  mkFrame ["A"; "B"; "C"; "D"; "E"] ["Cluster"] [[0]; [0]; [1]; [1]; [1]]%nat.

Definition make_config (distances genotyping thresholds : list (string * value))
    (fine : list value) : value :=
  YMap [("distances", YMap distances); ("genotyping", YMap genotyping);
        ("thresholds", YMap thresholds); ("all_constraints", YBool true);
        ("fine_clusterings", YList fine); ("output", YStr "out.tsv")].

(** One pre-built matrix. *)
Definition valid_config : value :=
  make_config [("SNP", YStr "snp.tsv")] [] [("SNP", YNum 5)] [YStr "SNP"].

(** Two pre-built matrices over different samples. *)
Definition two_config : value :=
  make_config [("SNP", YStr "snp.tsv"); ("MLST", YStr "mlst.tsv")] []
    [("SNP", YNum 5); ("MLST", YNum 5)] [].

(** ['SNP'] is a key of both ['distances'] and ['genotyping']. *)
Definition overlap_config : value :=
  make_config [("SNP", YStr "snp.tsv")] [("SNP", YStr "calls.txt")]
    [("SNP", YNum 5)] [].

(** ['WGS'] is a fine clustering and no modality. *)
Definition stray_config : value :=
  make_config [("SNP", YStr "snp.tsv")] [] [("SNP", YNum 5)] [YStr "WGS"].

Definition example_collaborators : Collaborators :=
  stub [("valid", valid_config); ("two", two_config);
        ("overlap", overlap_config); ("stray", stray_config)]
       [("M", example_matrix); ("R", relabelled_matrix); ("O", other_matrix)]
       [("P", example_partition); ("P5", five_partition)].

Definition nl : string := String "010"%char EmptyString.

Definition example_files : Files :=
  list_to_map
    [("/site-packages/pathogist/resources/blank_config.yaml", "blank");
     ("valid.yaml", "valid"); ("two.yaml", "two"); ("overlap.yaml", "overlap");
     ("stray.yaml", "stray"); ("broken.yaml", "{");
     ("snp.tsv", "M"); ("relabelled.tsv", "R"); ("mlst.tsv", "O");
     ("p.tsv", "P"); ("p5.tsv", "P5");
     ("distances.txt", "snp=snp.tsv" ++ nl ++ "mlst=relabelled.tsv" ++ nl);
     ("clusterings.txt", "snp=p.tsv" ++ nl ++ "mlst=p5.tsv" ++ nl);
     ("fine.txt", "snp" ++ nl ++ "WGS" ++ nl);
     ("blank_line.txt", "snp=snp.tsv" ++ nl ++ nl ++ "mlst=mlst.tsv" ++ nl)]%string.

Definition example_world : World := mkWorld example_files [].

Definition example_consensus_param : ConsensusParam :=
  mkConsensusParam "distances.txt" "clusterings.txt" "fine.txt" "out.tsv" false.

Definition example_correlation_param : CorrelationParam :=
  mkCorrelationParam "snp.tsv" 5 "out.tsv" true.

(** * The subcommands [distance] and [visualize] *)

(** The two further functions of [pathogist.io] and [pathogist.visualize]
    that the driver calls.  Each acts on the files: the matrix is written,
    the plot may be saved.  The third argument of [visualize_matrix] is the
    keyword [pdf] when the call gives it.

    A builder of [pathogist.distance] may also hand back [None] instead of a
    matrix.  [run_all] takes the result for a matrix (line 76 reads its
    columns); [distance] tests for [None] (line 170).  [returns_none t calls]
    tells whether the builder of the data type [t] hands back [None] on
    [calls]. *)
Class Outputs `{Collaborators} : Type := {
  returns_none : string -> Calls -> bool;
  write_distance_matrix : Frame -> value -> Files -> Result Files;
  visualize_matrix : Frame -> value -> option value -> Files -> Result Files
}.

Record DistanceParam : Type := mkDistanceParam {
  calls_path : string;
  data_type : string;
  dist_output_path : string
}.

(** [save_pdf] is [None] when the option is not given. *)
Record VisualizeParam : Type := mkVisualizeParam {
  vis_distance_matrix : string;
  save_pdf : option string;
  sample_name : string
}.

(** The truth value of an optional string: [None] and the empty string are
    false. *)
Definition truthy (o : option string) : bool :=
  match o with
  | Some (String _ _) => true
  | Some EmptyString | None => false
  end.

(** A call that leaves its effect in the files. *)
Definition run_output (f : Files -> Result Files) : M unit :=
  fun w => match f (fs w) with
           | Ok files => (Ok tt, mkWorld files (trace w))
           | Raise e => (Raise e, w)
           end.

Section OtherCommands.

Context `{Collaborators} {outputs : Outputs}.

(** Line 169: the builder of the data type [t] is called on the calls; its
    result is a matrix or [None]. *)
Definition build_or_none (t : string) (create : Calls -> Result Frame)
    (calls : Calls) : Result (option Frame) :=
  if returns_none t calls then Ok None
  else match create calls with
       | Ok m => Ok (Some m)
       | Raise e => Raise e
       end.

(** [distance(param)] *)
Definition distance (param : DistanceParam) : M unit :=
  logger_info "Creating distance matrix ..." ;;;
  reader <- lift (od_item read_genotyping_calls (data_type param)) ;;
  calls <- call (ReadCalls (data_type param) (YStr (calls_path param)))
                (reader (YStr (calls_path param))) ;;
  create <- lift (od_item create_genotype_distance (data_type param)) ;;
  distance_matrix <- call (CreateDistance (data_type param))
                          (fun _ => build_or_none (data_type param) create
                                      calls) ;;
  match distance_matrix with
  | Some m =>
      logger_info "Writing distance matrix ..." ;;;
      run_output (write_distance_matrix m (YStr (dist_output_path param))) ;;;
      logger_info "Distance matrix creation complete!"
  | None => ret tt
  end.

(** [visualize(param)] *)
Definition visualize (param : VisualizeParam) : M unit :=
  logger_info "Visualizing distance matrix ..." ;;;
  let path := YStr (vis_distance_matrix param) in
  distance_matrix <- call (OpenDistanceFile path) (open_distance_file path) ;;
  if truthy (save_pdf param) then
    run_output (visualize_matrix distance_matrix (YStr (sample_name param))
                  (Some YNull))
  else
    run_output (visualize_matrix distance_matrix (YStr (sample_name param))
                  None).

End OtherCommands.

(** ** Shapes of computations *)

(** No event of the computation is logged at warning level. *)
Definition below_warning (ev : Event) : bool :=
  match ev with
  | Log WARNING _ => false
  | _ => true
  end.






(** ** Further example inputs *)

(** A configuration without any modality. *)
Definition empty_config : value := make_config [] [] [] [].

(** ['WGS'] is a genotyping modality for which there is no reader. *)
Definition unknown_config : value :=
  make_config [] [("SNP", YStr "calls.txt"); ("WGS", YStr "calls.txt")]
    [("SNP", YNum 5); ("WGS", YNum 5)] [].

(** No ['thresholds']. *)
Definition keyless_config : value :=
  YMap [("distances", YMap []); ("genotyping", YMap []);
        ("fine_clusterings", YList []); ("output", YStr "out.tsv")].

(** ['fine_clusterings'] is the name itself, not a list of names. *)
Definition scalar_fine_config : value :=
  YMap [("distances", YMap [("SNP", YStr "snp.tsv")]); ("genotyping", YMap []);
        ("thresholds", YMap [("SNP", YNum 5)]); ("all_constraints", YBool true);
        ("fine_clusterings", YStr "SNP"); ("output", YStr "out.tsv")].

Definition more_collaborators : Collaborators :=
  stub [("empty", empty_config); ("unknown", unknown_config);
        ("keyless", keyless_config); ("scalar", scalar_fine_config)]
       [("M", example_matrix); ("O", other_matrix)]
       [("P", example_partition)].

Definition more_files : Files :=
  list_to_map
    [("empty.yaml", "empty"); ("unknown.yaml", "unknown");
     ("keyless.yaml", "keyless"); ("scalar.yaml", "scalar");
     ("snp.tsv", "M"); ("mlst.tsv", "O"); ("calls.txt", "M");
     ("mismatch.txt", "snp=snp.tsv" ++ nl ++ "mlst=mlst.tsv" ++ nl)]%string.

Definition more_world : World := mkWorld more_files [].

(** The builder of CNV matrices hands back [None]; the matrix is written
    as the list of its samples, the plot is saved under the sample name when
    the keyword is given. *)
Definition example_outputs : @Outputs more_collaborators := {|
  returns_none := fun t _ => String.eqb t "CNV";
  write_distance_matrix := fun m path files =>
    match path with
    | YStr p => Ok (<[p := String.concat "," (columns m)]> files)
    | _ => Raise TypeError
    end;
  visualize_matrix := fun m name pdf files =>
    match name, pdf with
    | YStr n, Some _ => Ok (<[(n ++ ".pdf")%string := "plot"]> files)
    | YStr _, None => Ok files
    | _, _ => Raise TypeError
    end
|}.

(** * Properties of the solvers *)

Section SolverFacts.

Import Cluster.

Lemma Qltb_lt x y : Qltb x y = true <-> (x < y)%Q.
Proof.
  unfold Qltb. rewrite negb_true_iff. split.
  - intros H. apply Qnot_le_lt. intros Hle.
    apply Qle_bool_iff in Hle. congruence.
  - intros H. destruct (Qle_bool y x) eqn:Hb; [|reflexivity].
    apply Qle_bool_iff in Hb. lra.
Qed.

Lemma Qltb_ge x y : Qltb x y = false <-> (y <= x)%Q.
Proof.
  unfold Qltb. rewrite negb_false_iff. apply Qle_bool_iff.
Qed.

Lemma in_pairs n i j : In (i, j) (pairs n) <-> (i < j < n)%nat.
Proof.
  unfold pairs. rewrite in_flat_map. split.
  - intros (x & Hx & Hin). apply in_map_iff in Hin as (y & Heq & Hy).
    inversion Heq; subst. apply in_seq in Hx, Hy. lia.
  - intros H. exists i. split; [apply in_seq; lia|].
    apply in_map_iff. exists j. split; [reflexivity|]. apply in_seq. lia.
Qed.

Lemma in_triples n i j k :
  In (i, j, k) (triples n) <-> (i < n)%nat /\ (j < n)%nat /\ (k < n)%nat.
Proof.
  unfold triples. rewrite in_flat_map. split.
  - intros (x & Hx & Hin). apply in_flat_map in Hin as (y & Hy & Hin).
    apply in_map_iff in Hin as (z & Heq & Hz). inversion Heq; subst.
    apply in_seq in Hx, Hy, Hz. lia.
  - intros (Hi & Hj & Hk). exists i.
    split; [apply in_seq; lia|]. apply in_flat_map. exists j.
    split; [apply in_seq; lia|]. apply in_map_iff. exists k.
    split; [reflexivity|]. apply in_seq. lia.
Qed.

Lemma pair_eqb_eq p q : pair_eqb p q = true <-> p = q.
Proof.
  destruct p as [a b], q as [c d]. unfold pair_eqb. simpl.
  rewrite andb_true_iff, !Nat.eqb_eq. split.
  - intros [-> ->]. reflexivity.
  - intros H. inversion H. auto.
Qed.

Lemma same_spec E i j :
  same E i j = true <-> i = j \/ In (Nat.min i j, Nat.max i j) E.
Proof.
  unfold same. rewrite orb_true_iff, Nat.eqb_eq, existsb_exists. split.
  - intros [H | (x & Hx & Heq)]; [left; assumption|].
    apply pair_eqb_eq in Heq. subst x. right. assumption.
  - intros [H | H]; [left; assumption|]. right.
    exists (Nat.min i j, Nat.max i j). split; [assumption|].
    apply pair_eqb_eq. reflexivity.
Qed.

Lemma same_refl E i : same E i i = true.
Proof. apply same_spec. left. reflexivity. Qed.

Lemma same_sym E i j : same E i j = same E j i.
Proof.
  unfold same. rewrite (Nat.eqb_sym i j), (Nat.min_comm i j), (Nat.max_comm i j).
  reflexivity.
Qed.

Lemma same_nil i j : same [] i j = (i =? j)%nat.
Proof. unfold same. simpl. apply orb_false_r. Qed.

Lemma triangle_ok_spec E i j k :
  triangle_ok E (i, j, k) = true <->
  (same E i j = true -> same E j k = true -> same E i k = true).
Proof.
  unfold triangle_ok.
  destruct (same E i j), (same E j k), (same E i k); simpl;
    split; intros H; try reflexivity; try discriminate; auto;
    try (specialize (H eq_refl eq_refl); discriminate).
Qed.

Lemma triangles_transitive E n :
  forallb (triangle_ok E) (triples n) = true -> transitive E n.
Proof.
  intros H i j k Hi Hj Hk. apply triangle_ok_spec.
  rewrite forallb_forall in H. apply H. apply in_triples. auto.
Qed.

Lemma nil_triangles l : forallb (triangle_ok []) l = true.
Proof.
  apply forallb_forall. intros [[i j] k] _. apply triangle_ok_spec.
  rewrite !same_nil, !Nat.eqb_eq. congruence.
Qed.

(** **** The enumeration and the choice of a minimum *)

Lemma nil_in_sublists {A} (l : list A) : In [] (sublists l).
Proof.
  induction l as [|x r IH]; simpl; [left; reflexivity|].
  apply in_or_app. left. assumption.
Qed.

Lemma filter_in_sublists {A} (f : A -> bool) (l : list A) :
  In (List.filter f l) (sublists l).
Proof.
  induction l as [|x r IH]; simpl; [left; reflexivity|].
  apply in_or_app. destruct (f x).
  - right. apply in_map. assumption.
  - left. assumption.
Qed.

Lemma argmin_in {A} (f : A -> Q) l : forall b, In (argmin f b l) (b :: l).
Proof.
  induction l as [|x r IH]; intros b; simpl; [left; reflexivity|].
  destruct (Qltb (f x) (f b)).
  - right. apply IH.
  - destruct (IH b) as [H | H]; [left; assumption | right; right; assumption].
Qed.

Lemma argmin_le_best {A} (f : A -> Q) l :
  forall b, (f (argmin f b l) <= f b)%Q.
Proof.
  induction l as [|x r IH]; intros b; simpl; [lra|].
  destruct (Qltb (f x) (f b)) eqn:Hc.
  - apply Qltb_lt in Hc. specialize (IH x). lra.
  - apply IH.
Qed.

Lemma argmin_le {A} (f : A -> Q) l :
  forall b y, In y (b :: l) -> (f (argmin f b l) <= f y)%Q.
Proof.
  induction l as [|x r IH]; intros b y Hy; simpl.
  - destruct Hy as [<- | []]. lra.
  - destruct (Qltb (f x) (f b)) eqn:Hc.
    + apply Qltb_lt in Hc. destruct Hy as [<- | [<- | Hy]].
      * pose proof (argmin_le_best f r x). lra.
      * apply argmin_le_best.
      * apply IH. right. assumption.
    + apply Qltb_ge in Hc. destruct Hy as [<- | [<- | Hy]].
      * apply argmin_le_best.
      * pose proof (argmin_le_best f r b). lra.
      * apply IH. right. assumption.
Qed.

Lemma minimize_spec n (fe : assignment -> bool) ob (E : assignment) :
  minimize n fe ob = Some E ->
  In E (sublists (pairs n)) /\ fe E = true /\
  forall E', In E' (sublists (pairs n)) -> fe E' = true -> (ob E <= ob E')%Q.
Proof.
  unfold minimize. destruct (List.filter fe (sublists (pairs n))) as [|b r] eqn:Hf;
    [discriminate|].
  intros [= <-].
  assert (Hin : In (argmin ob b r) (List.filter fe (sublists (pairs n)))).
  { rewrite Hf. apply argmin_in. }
  apply filter_In in Hin as [Hin Hfe]. split; [assumption|]. split; [assumption|].
  intros E' HE' Hfe'. apply argmin_le. rewrite <- Hf. apply filter_In. auto.
Qed.

Lemma minimize_some n (fe : assignment -> bool) ob (E0 : assignment) :
  In E0 (sublists (pairs n)) -> fe E0 = true ->
  exists E, minimize n fe ob = Some E.
Proof.
  intros Hin Hfe. unfold minimize.
  destruct (List.filter fe (sublists (pairs n))) as [|b r] eqn:Hf.
  - assert (H : In E0 (List.filter fe (sublists (pairs n)))).
    { apply filter_In. auto. }
    rewrite Hf in H. destruct H.
  - eexists. reflexivity.
Qed.

(** **** Decoding an assignment that satisfies the transitivity constraints *)

Lemma class_in E n i j :
  In j (List.filter (same E i) (seq 0 n)) <-> (j < n)%nat /\ same E i j = true.
Proof.
  rewrite filter_In, in_seq. intuition lia.
Qed.

Lemma grow_class E n i (S : list nat) :
  transitive E n -> (i < n)%nat -> In i S ->
  (forall s, In s S -> (s < n)%nat /\ same E i s = true) ->
  grow E n S = List.filter (same E i) (seq 0 n).
Proof.
  intros Ht Hi HiS HS. unfold grow. apply filter_ext_in. intros j Hj.
  apply in_seq in Hj. apply eq_true_iff_eq. rewrite existsb_exists. split.
  - intros (s & Hs & Hsj). destruct (HS s Hs) as [Hsn His].
    apply (Ht i s j); (assumption || lia).
  - intros Hij. exists i. auto.
Qed.

Lemma iter_grow_inv E n i m :
  transitive E n -> (i < n)%nat ->
  In i (Nat.iter m (grow E n) [i]) /\
  forall s, In s (Nat.iter m (grow E n) [i]) -> (s < n)%nat /\ same E i s = true.
Proof.
  intros Ht Hi. induction m as [|m [IH1 IH2]].
  - simpl. split; [left; reflexivity|].
    intros s [<- | []]. split; [assumption | apply same_refl].
  - change (Nat.iter (S m) (grow E n) [i])
      with (grow E n (Nat.iter m (grow E n) [i])).
    rewrite (grow_class E n i) by assumption. split.
    + apply class_in. split; [assumption | apply same_refl].
    + intros s Hs. apply class_in in Hs. assumption.
Qed.

Lemma component_class E n i :
  transitive E n -> (i < n)%nat ->
  component E n i = List.filter (same E i) (seq 0 n).
Proof.
  intros Ht Hi. unfold component.
  assert (Hm : forall m, (0 < m)%nat ->
            Nat.iter m (grow E n) [i] = List.filter (same E i) (seq 0 n)).
  { intros [|m] Hpos; [lia|].
    change (Nat.iter (S m) (grow E n) [i])
      with (grow E n (Nat.iter m (grow E n) [i])).
    destruct (iter_grow_inv E n i m Ht Hi) as [H1 H2].
    apply grow_class; assumption. }
  apply Hm. lia.
Qed.

Lemma hd_in {A} (d : A) (l : list A) : l <> [] -> In (hd d l) l.
Proof. destruct l; [congruence | intros _; left; reflexivity]. Qed.

Lemma hd_default {A} (d d' : A) (l : list A) : l <> [] -> hd d l = hd d' l.
Proof. destruct l; [congruence | reflexivity]. Qed.

Lemma class_nonempty E n i :
  (i < n)%nat -> List.filter (same E i) (seq 0 n) <> [].
Proof.
  intros Hi Hnil.
  assert (H : In i (List.filter (same E i) (seq 0 n))).
  { apply class_in. split; [assumption | apply same_refl]. }
  rewrite Hnil in H. destruct H.
Qed.

Lemma label_in_class E n i :
  transitive E n -> (i < n)%nat ->
  (label E n i < n)%nat /\ same E i (label E n i) = true.
Proof.
  intros Ht Hi. unfold label. rewrite component_class by assumption.
  apply class_in. apply hd_in. apply class_nonempty. assumption.
Qed.

Lemma label_eq_iff E n i j :
  transitive E n -> (i < n)%nat -> (j < n)%nat ->
  label E n i = label E n j <-> same E i j = true.
Proof.
  intros Ht Hi Hj. split.
  - intros Heq.
    destruct (label_in_class E n i Ht Hi) as [Hli Hsi].
    destruct (label_in_class E n j Ht Hj) as [Hlj Hsj].
    rewrite <- Heq in Hsj, Hlj. rewrite same_sym in Hsj.
    apply (Ht i (label E n i) j); assumption.
  - intros Hij. unfold label. rewrite !component_class by assumption.
    assert (Hext : List.filter (same E i) (seq 0 n) =
                   List.filter (same E j) (seq 0 n)).
    { apply filter_ext_in. intros k Hk. apply in_seq in Hk.
      apply eq_true_iff_eq. split; intros H.
      - apply (Ht j i k); try (assumption || lia).
        rewrite same_sym. assumption.
      - apply (Ht i j k); (assumption || lia). }
    rewrite Hext. apply hd_default. apply class_nonempty. assumption.
Qed.

(** **** Reading labels off a clustering *)

Lemma position_lookup s l : forall i, position s l = Some i -> l !! i = Some s.
Proof.
  induction l as [|x r IH]; intros i; simpl; [discriminate|].
  destruct (String.eqb x s) eqn:Hx.
  - intros [= <-]. apply String.eqb_eq in Hx. subst. reflexivity.
  - destruct (position s r) as [k|]; simpl; [|discriminate].
    intros [= <-]. simpl. apply IH. reflexivity.
Qed.

Lemma position_some s l : In s l -> exists i, position s l = Some i.
Proof.
  induction l as [|x r IH]; intros Hin; [destruct Hin|]. simpl.
  destruct (String.eqb x s) eqn:Hx; [eexists; reflexivity|].
  destruct Hin as [-> | Hin]; [rewrite String.eqb_refl in Hx; discriminate|].
  destruct (IH Hin) as [i ->]. eexists. reflexivity.
Qed.

Lemma position_lt s l i : position s l = Some i -> (i < length l)%nat.
Proof.
  intros H. apply position_lookup in H. eapply lookup_lt_Some. eassumption.
Qed.

Lemma lookup_map_seq {A} (f : nat -> A) n :
  forall a i, (i < n)%nat -> map f (seq a n) !! i = Some (f (a + i)%nat).
Proof.
  induction n as [|n IH]; intros a i Hi; [lia|].
  destruct i as [|i]; simpl.
  - rewrite Nat.add_0_r. reflexivity.
  - rewrite IH by lia. f_equal. f_equal. lia.
Qed.

Lemma label_of_decode samples E s i :
  position s samples = Some i ->
  label_of (decode samples E) s = Some (label E (length samples) i).
Proof.
  intros Hp. unfold label_of, decode. simpl. rewrite Hp. simpl.
  rewrite lookup_map_seq by (eapply position_lt; eassumption). reflexivity.
Qed.

Lemma label_at_position p samples s i :
  position s samples = Some i -> label_at p samples i = label_of p s.
Proof.
  intros Hp. unfold label_at. rewrite (position_lookup _ _ _ Hp). reflexivity.
Qed.

(** **** The consensus solve *)

Lemma nil_hard_ok clusterings fine samples :
  hard_ok clusterings fine samples [] = true.
Proof.
  unfold hard_ok. apply forallb_forall. intros mp _.
  apply orb_true_iff. right. apply forallb_forall. intros [i j] Hij.
  apply in_pairs in Hij. simpl. rewrite same_nil.
  replace (i =? j)%nat with false by (symmetry; apply Nat.eqb_neq; lia).
  rewrite andb_false_r. reflexivity.
Qed.

Lemma consensus_solved weight distances clusterings fine :
  (forall mp, In mp clusterings ->
     covers (snd mp) (consensus_samples clusterings) = true) ->
  exists E,
    consensus weight distances clusterings fine =
      Ok (decode (consensus_samples clusterings) E) /\
    transitive E (length (consensus_samples clusterings)) /\
    hard_ok clusterings fine (consensus_samples clusterings) E = true /\
    forall E', In E' (sublists (pairs (length (consensus_samples clusterings)))) ->
      forallb (triangle_ok E')
        (triples (length (consensus_samples clusterings))) = true ->
      hard_ok clusterings fine (consensus_samples clusterings) E' = true ->
      (consensus_objective (weight distances) clusterings
         (consensus_samples clusterings) E <=
       consensus_objective (weight distances) clusterings
         (consensus_samples clusterings) E')%Q.
Proof.
  intros Hcov. unfold consensus.
  set (samples := consensus_samples clusterings) in *.
  set (n := length samples).
  assert (Hall : forallb (fun mp => covers (snd mp) samples) clusterings = true).
  { apply forallb_forall. assumption. }
  rewrite Hall. simpl.
  set (fe := fun E : assignment =>
               forallb (triangle_ok E) (triples n) &&
               hard_ok clusterings fine samples E).
  set (ob := consensus_objective (weight distances) clusterings samples).
  destruct (minimize_some n fe ob []) as [E HE].
  - apply nil_in_sublists.
  - unfold fe. rewrite nil_triangles, nil_hard_ok. reflexivity.
  - rewrite HE. exists E. split; [reflexivity|].
    apply minimize_spec in HE as (Hin & Hfe & Hmin).
    unfold fe in Hfe. apply andb_true_iff in Hfe as [Htri Hhard].
    split; [apply triangles_transitive; assumption|].
    split; [assumption|].
    intros E' HE' Htri' Hhard'. apply Hmin; [assumption|].
    unfold fe. rewrite Htri', Hhard'. reflexivity.
Qed.

(** **** Sums of penalties *)

Lemma Qsum_nonneg l : (forall x, In x l -> (0 <= x)%Q) -> (0 <= Qsum l)%Q.
Proof.
  induction l as [|x r IH]; intros H; simpl; [lra|].
  pose proof (H x (or_introl eq_refl)).
  assert (0 <= Qsum r)%Q by (apply IH; intros; apply H; right; assumption).
  lra.
Qed.

Lemma Qsum_zero l : (forall x, In x l -> (x == 0)%Q) -> (Qsum l == 0)%Q.
Proof.
  induction l as [|x r IH]; intros H; simpl; [lra|].
  pose proof (H x (or_introl eq_refl)).
  assert (Qsum r == 0)%Q by (apply IH; intros; apply H; right; assumption).
  lra.
Qed.

Lemma Qsum_le_zero l :
  (forall x, In x l -> (0 <= x)%Q) -> (Qsum l <= 0)%Q ->
  forall x, In x l -> (x == 0)%Q.
Proof.
  induction l as [|y r IH]; intros Hpos Hle x Hx; [destruct Hx|].
  simpl in Hle.
  pose proof (Hpos y (or_introl eq_refl)).
  assert (0 <= Qsum r)%Q
    by (apply Qsum_nonneg; intros; apply Hpos; right; assumption).
  destruct Hx as [<- | Hx]; [lra|].
  apply IH; [intros; apply Hpos; right; assumption | lra | assumption].
Qed.

(** **** The decision of a modality is an equivalence *)

Lemma joins_sym p samples i j : joins p samples i j = joins p samples j i.
Proof.
  unfold joins. destruct (label_at p samples i), (label_at p samples j);
    try reflexivity. apply Nat.eqb_sym.
Qed.

Lemma joins_trans p samples i j k :
  joins p samples i j = true -> joins p samples j k = true ->
  joins p samples i k = true.
Proof.
  unfold joins.
  destruct (label_at p samples i), (label_at p samples j),
    (label_at p samples k); try discriminate.
  rewrite !Nat.eqb_eq. congruence.
Qed.

Lemma covers_label_at p samples i :
  covers p samples = true -> (i < length samples)%nat ->
  is_Some (label_at p samples i).
Proof.
  intros Hc Hi. unfold covers in Hc. rewrite forallb_forall in Hc.
  destruct (lookup_lt_is_Some_2 samples i Hi) as [s Hs].
  unfold label_at. rewrite Hs. simpl.
  assert (Hin : In s samples).
  { apply list_elem_of_In. eapply list_elem_of_lookup_2. eassumption. }
  specialize (Hc s Hin). apply bool_decide_eq_true_1 in Hc. assumption.
Qed.

Lemma joins_refl p samples i :
  covers p samples = true -> (i < length samples)%nat ->
  joins p samples i i = true.
Proof.
  intros Hc Hi. destruct (covers_label_at p samples i Hc Hi) as [l Hl].
  unfold joins. rewrite Hl. apply Nat.eqb_refl.
Qed.

(** An assignment that agrees with a symmetric, reflexive decision on every
    pair variable agrees with it on every two samples. *)
Lemma same_agrees E n (g : nat -> nat -> bool) :
  (forall i j, g i j = g j i) ->
  (forall i, (i < n)%nat -> g i i = true) ->
  (forall ij, In ij (pairs n) -> same E (fst ij) (snd ij) = g (fst ij) (snd ij)) ->
  forall i j, (i < n)%nat -> (j < n)%nat -> same E i j = g i j.
Proof.
  intros Hsym Hrefl Hp i j Hi Hj.
  destruct (Nat.lt_trichotomy i j) as [Hlt | [<- | Hgt]].
  - apply (Hp (i, j)). apply in_pairs. lia.
  - rewrite same_refl, Hrefl by assumption. reflexivity.
  - rewrite same_sym, Hsym. apply (Hp (j, i)). apply in_pairs. lia.
Qed.

(** The assignment that joins exactly the pairs a clustering joins. *)
Lemma same_induced p samples :
  let E := List.filter (fun ij => joins p samples (fst ij) (snd ij))
                       (pairs (length samples)) in
  forall ij, In ij (pairs (length samples)) ->
    same E (fst ij) (snd ij) = joins p samples (fst ij) (snd ij).
Proof.
  intros E [i j] Hij. simpl. pose proof Hij as Hlt. apply in_pairs in Hlt.
  apply eq_true_iff_eq. rewrite same_spec.
  replace (Nat.min i j) with i by lia. replace (Nat.max i j) with j by lia.
  unfold E. rewrite filter_In. simpl. split.
  - intros [Heq | [_ H]]; [lia | assumption].
  - intros H. right. auto.
Qed.

(** **** The tie-break *)

Lemma lex_le_refl u : lex_le u u = true.
Proof.
  induction u as [|a u IH]; simpl; [reflexivity|].
  rewrite Bool.eqb_reflx. exact IH.
Qed.

Lemma lex_le_antisym u : forall v,
  length u = length v -> lex_le u v = true -> lex_le v u = true -> u = v.
Proof.
  induction u as [|a u IH]; intros [|b v] Hlen Huv Hvu; try discriminate;
    [reflexivity|].
  simpl in Huv, Hvu. destruct a, b; simpl in Huv, Hvu; try discriminate;
    f_equal; apply IH; auto.
Qed.

Lemma sublists_incl {A} (l : list A) : forall E, In E (sublists l) -> incl E l.
Proof.
  induction l as [|x r IH]; intros E HE; simpl in HE.
  - destruct HE as [<- | []]. intros y [].
  - apply in_app_or in HE as [HE | HE].
    + intros y Hy. right. apply (IH E HE). assumption.
    + apply in_map_iff in HE as (E0 & <- & HE0).
      intros y [<- | Hy]; [left; reflexivity | right; apply (IH E0 HE0 y Hy)].
Qed.

Lemma sublists_absent {A} (l : list A) x E :
  ~ In x l -> In E (sublists l) -> ~ In x E.
Proof. intros Hx HE Hin. apply Hx. apply (sublists_incl l E HE). assumption. Qed.

Lemma same_absent E x :
  (fst x < snd x)%nat -> ~ In x E -> same E (fst x) (snd x) = false.
Proof.
  intros Hlt Hnot. destruct (same E (fst x) (snd x)) eqn:Hs; [|reflexivity].
  apply same_spec in Hs as [Heq | Hin]; [lia|].
  rewrite Nat.min_l, Nat.max_r in Hin by lia.
  destruct x. contradiction.
Qed.

Lemma same_head E x :
  (fst x < snd x)%nat -> same (x :: E) (fst x) (snd x) = true.
Proof.
  intros Hlt. apply same_spec. right.
  rewrite Nat.min_l, Nat.max_r by lia. left. destruct x. reflexivity.
Qed.

Lemma same_skip E x y :
  (fst y < snd y)%nat -> x <> y ->
  same (x :: E) (fst y) (snd y) = same E (fst y) (snd y).
Proof.
  intros Hlt Hne. unfold same. simpl.
  rewrite Nat.min_l, Nat.max_r by lia.
  destruct (pair_eqb (fst y, snd y) x) eqn:Hp; [|reflexivity].
  apply pair_eqb_eq in Hp. destruct y. simpl in Hp. congruence.
Qed.

Lemma values_on_skip x E l :
  List.Forall (fun p => (fst p < snd p)%nat) l -> ~ In x l ->
  values_on l (x :: E) = values_on l E.
Proof.
  induction l as [|y l IH]; intros Hlt Hnot; [reflexivity|].
  unfold values_on. simpl. f_equal.
  - apply same_skip; [exact (Forall_inv Hlt)|].
    intros ->. apply Hnot. left. reflexivity.
  - apply IH; [exact (Forall_inv_tail Hlt)|].
    intros Hin. apply Hnot. right. assumption.
Qed.

Lemma sorted_ext {A} (R1 R2 : A -> A -> Prop) l :
  (forall a b, In a l -> In b l -> R1 a b -> R2 a b) ->
  StronglySorted R1 l -> StronglySorted R2 l.
Proof.
  intros Himp Hs. induction Hs as [|a l Hs IH Hall]; constructor.
  - apply IH. intros x y Hx Hy. apply Himp; right; assumption.
  - apply List.Forall_forall. intros b Hb. apply Himp.
    + left. reflexivity.
    + right. assumption.
    + rewrite List.Forall_forall in Hall. apply Hall. assumption.
Qed.

Lemma sorted_map {A B} (f : A -> B) (R1 : A -> A -> Prop)
    (R2 : B -> B -> Prop) l :
  (forall a b, R1 a b -> R2 (f a) (f b)) ->
  StronglySorted R1 l -> StronglySorted R2 (map f l).
Proof.
  intros Himp Hs. induction Hs as [|a l Hs IH Hall]; simpl; constructor.
  - exact IH.
  - apply List.Forall_forall. intros b Hb.
    apply in_map_iff in Hb as (b0 & <- & Hb0). apply Himp.
    rewrite List.Forall_forall in Hall. apply Hall. assumption.
Qed.

Lemma sorted_filter {A} (R : A -> A -> Prop) (f : A -> bool) l :
  StronglySorted R l -> StronglySorted R (List.filter f l).
Proof.
  intros Hs. induction Hs as [|a l Hs IH Hall]; simpl; [constructor|].
  destruct (f a); [|exact IH]. constructor; [exact IH|].
  apply List.Forall_forall. intros b Hb. apply filter_In in Hb as [Hb _].
  rewrite List.Forall_forall in Hall. apply Hall. assumption.
Qed.

Lemma sorted_app {A} (R : A -> A -> Prop) l1 l2 :
  StronglySorted R l1 -> StronglySorted R l2 ->
  (forall a b, In a l1 -> In b l2 -> R a b) ->
  StronglySorted R (l1 ++ l2).
Proof.
  intros H1 H2. induction H1 as [|a l Hs IH Hall]; intros Hcross; simpl;
    [exact H2|].
  constructor.
  - apply IH. intros x y Hx Hy. apply Hcross; [right|]; assumption.
  - apply List.Forall_forall. intros b Hb.
    apply in_app_or in Hb as [Hb | Hb].
    + rewrite List.Forall_forall in Hall. apply Hall. assumption.
    + apply Hcross; [left; reflexivity | assumption].
Qed.

Lemma sorted_after {A} (R : A -> A -> Prop) l1 x l2 :
  StronglySorted R (l1 ++ x :: l2) -> List.Forall (R x) l2.
Proof.
  induction l1 as [|a l1 IH]; simpl; intros Hs; inversion Hs; subst; auto.
Qed.

(** The enumeration lists the assignments in the order of the tie-break. *)
Lemma sublists_sorted l :
  List.NoDup l -> List.Forall (fun p => (fst p < snd p)%nat) l ->
  StronglySorted
    (fun E1 E2 => lex_le (values_on l E1) (values_on l E2) = true)
    (sublists l).
Proof.
  induction l as [|x r IH]; intros Hnd Hlt.
  - simpl. constructor; constructor.
  - inversion Hnd as [|x' r' Hx Hnd']; subst.
    pose proof (Forall_inv Hlt) as Hxlt.
    pose proof (Forall_inv_tail Hlt) as Hrlt.
    simpl. apply sorted_app.
    + apply (sorted_ext
               (fun E1 E2 => lex_le (values_on r E1) (values_on r E2) = true));
        [|apply IH; assumption].
      intros a b Ha Hb HR. unfold values_on. simpl.
      rewrite !same_absent by eauto using sublists_absent. exact HR.
    + apply (sorted_map (cons x)
               (fun E1 E2 => lex_le (values_on r E1) (values_on r E2) = true));
        [|apply IH; assumption].
      intros a b HR. unfold values_on. simpl.
      rewrite !same_head by assumption. simpl.
      fold (values_on r (x :: a)). fold (values_on r (x :: b)).
      rewrite !values_on_skip by assumption. exact HR.
    + intros a b Ha Hb. apply in_map_iff in Hb as (b0 & <- & Hb0).
      unfold values_on. simpl.
      rewrite (same_absent a) by eauto using sublists_absent.
      rewrite same_head by assumption. reflexivity.
Qed.

(** An assignment of the enumeration is known by the values of its
    variables. *)
Lemma sublists_values_inj l :
  List.NoDup l -> List.Forall (fun p => (fst p < snd p)%nat) l ->
  forall E1 E2, In E1 (sublists l) -> In E2 (sublists l) ->
    values_on l E1 = values_on l E2 -> E1 = E2.
Proof.
  induction l as [|x r IH]; intros Hnd Hlt E1 E2 H1 H2 Hv.
  - simpl in H1, H2. destruct H1 as [<- | []], H2 as [<- | []]. reflexivity.
  - inversion Hnd as [|x' r' Hx Hnd']; subst.
    pose proof (Forall_inv Hlt) as Hxlt.
    pose proof (Forall_inv_tail Hlt) as Hrlt.
    simpl in H1, H2. apply in_app_or in H1, H2.
    unfold values_on in Hv. simpl in Hv. injection Hv as Hhd Htl.
    fold (values_on r E1) in Htl. fold (values_on r E2) in Htl.
    destruct H1 as [H1 | H1], H2 as [H2 | H2].
    + apply IH; assumption.
    + exfalso. apply in_map_iff in H2 as (B & <- & HB).
      rewrite (same_absent E1) in Hhd by eauto using sublists_absent.
      rewrite same_head in Hhd by assumption. discriminate.
    + exfalso. apply in_map_iff in H1 as (B & <- & HB).
      rewrite (same_absent E2) in Hhd by eauto using sublists_absent.
      rewrite same_head in Hhd by assumption. discriminate.
    + apply in_map_iff in H1 as (B1 & <- & HB1).
      apply in_map_iff in H2 as (B2 & <- & HB2).
      rewrite !values_on_skip in Htl by assumption.
      f_equal. apply IH; assumption.
Qed.

Lemma pairs_lt n : List.Forall (fun p => (fst p < snd p)%nat) (pairs n).
Proof.
  apply List.Forall_forall. intros [i j] Hin. apply in_pairs in Hin. simpl. lia.
Qed.

Lemma NoDup_map_pair (i : nat) (l : list nat) :
  List.NoDup l -> List.NoDup (map (pair i) l).
Proof.
  induction 1 as [|j l Hj Hnd IH]; simpl; constructor; [|exact IH].
  intros Hin. apply in_map_iff in Hin as (k & [= ->] & Hk). contradiction.
Qed.

Lemma NoDup_pairs n : List.NoDup (pairs n).
Proof.
  unfold pairs.
  assert (Hgen : forall l : list nat, List.NoDup l ->
            List.NoDup (flat_map (fun i => map (pair i) (seq (S i) (n - S i))) l)).
  { induction 1 as [|i l Hi Hnd IH]; simpl; [constructor|].
    apply List.NoDup_app; [| exact IH |].
    - apply NoDup_map_pair. apply List.seq_NoDup.
    - intros [a b] Ha Hb. apply in_map_iff in Ha as (k & [= -> ->] & Hk).
      apply in_flat_map in Hb as (i' & Hi' & Hb).
      apply in_map_iff in Hb as (k' & [= -> ->] & Hk'). contradiction. }
  apply Hgen. apply List.seq_NoDup.
Qed.

(** **** The minimum that is chosen *)

Lemma argmin_first {A} (f : A -> Q) r : forall b pre mid,
  (forall x, In x pre -> (f b < f x)%Q) ->
  (forall x, In x mid -> (f b <= f x)%Q) ->
  exists l1 l2,
    pre ++ b :: mid ++ r = l1 ++ argmin f b r :: l2 /\
    (forall x, In x l1 -> (f (argmin f b r) < f x)%Q) /\
    (forall x, In x l2 -> (f (argmin f b r) <= f x)%Q).
Proof.
  induction r as [|x r IH]; intros b pre mid Hpre Hmid; simpl.
  - exists pre, mid. rewrite app_nil_r. auto.
  - destruct (Qltb (f x) (f b)) eqn:Hc.
    + apply Qltb_lt in Hc.
      destruct (IH x (pre ++ b :: mid) []) as (l1 & l2 & Heq & H1 & H2).
      * intros y Hy. apply in_app_or in Hy as [Hy | [<- | Hy]].
        -- specialize (Hpre y Hy). lra.
        -- exact Hc.
        -- specialize (Hmid y Hy). lra.
      * intros y [].
      * exists l1, l2. split; [|auto]. rewrite <- Heq. simpl.
        rewrite <- app_assoc. reflexivity.
    + apply Qltb_ge in Hc.
      destruct (IH b pre (mid ++ [x])) as (l1 & l2 & Heq & H1 & H2).
      * exact Hpre.
      * intros y Hy. apply in_app_or in Hy as [Hy | [<- | []]].
        -- apply Hmid. assumption.
        -- exact Hc.
      * exists l1, l2. split; [|auto]. rewrite <- Heq, <- app_assoc.
        reflexivity.
Qed.

(** The exact backend returns the optimum that the tie-break keeps. *)
Lemma minimize_chosen n (fe : assignment -> bool) ob (E : assignment) :
  minimize n fe ob = Some E -> chosen n fe ob E.
Proof.
  intros Hmin. pose proof (minimize_spec n fe ob E Hmin) as Hopt.
  split; [exact Hopt|].
  destruct Hopt as (HinE & HfeE & _).
  intros E' (Hin' & Hfe' & Hle').
  unfold minimize in Hmin.
  destruct (List.filter fe (sublists (pairs n))) as [|b r] eqn:Hf;
    [discriminate|].
  injection Hmin as <-.
  destruct (argmin_first ob r b [] []) as (l1 & l2 & Heq & H1 & H2);
    [intros ? [] | intros ? [] |].
  simpl in Heq.
  assert (HE' : In E' (b :: r)) by (rewrite <- Hf; apply filter_In; auto).
  rewrite Heq in HE'. apply in_app_or in HE' as [HE' | [<- | HE']].
  - exfalso. specialize (H1 _ HE'). specialize (Hle' _ HinE HfeE). lra.
  - apply lex_le_refl.
  - pose proof (sublists_sorted (pairs n) (NoDup_pairs n) (pairs_lt n)) as Hs.
    apply (sorted_filter _ fe) in Hs. rewrite Hf, Heq in Hs.
    apply sorted_after in Hs. rewrite List.Forall_forall in Hs.
    apply Hs. assumption.
Qed.

(** The tie-break keeps one optimum. *)
Lemma chosen_unique n (fe : assignment -> bool) ob (E1 E2 : assignment) :
  chosen n fe ob E1 -> chosen n fe ob E2 -> E1 = E2.
Proof.
  intros [Ho1 Hl1] [Ho2 Hl2].
  apply (sublists_values_inj (pairs n) (NoDup_pairs n) (pairs_lt n)).
  - apply Ho1.
  - apply Ho2.
  - apply lex_le_antisym.
    + unfold values_on. rewrite !length_map. reflexivity.
    + apply Hl1. exact Ho2.
    + apply Hl2. exact Ho1.
Qed.

Lemma solves_unique m theta use_all c1 c2 :
  solves m theta use_all c1 -> solves m theta use_all c2 -> c1 = c2.
Proof.
  intros (E1 & H1 & ->) (E2 & H2 & ->).
  rewrite (chosen_unique _ _ _ _ _ H1 H2). reflexivity.
Qed.

End SolverFacts.

Section SolverContract.

Import Cluster.

(** C1. Fine-constraint respect: when the inputs of the consensus solve are
    defined over one sample set, the solve returns a clustering, and two
    samples that a modality named in the fine list separates carry different
    labels in it, whatever the weights of the modalities. *)
Theorem consensus_respects_fine weight distances clusterings fine f pf a b x y :
  (forall mp, In mp clusterings ->
     covers (snd mp) (consensus_samples clusterings) = true) ->
  f ∈ fine -> In (f, pf) clusterings ->
  In a (consensus_samples clusterings) ->
  In b (consensus_samples clusterings) ->
  label_of pf a = Some x -> label_of pf b = Some y -> x <> y ->
  exists result la lb,
    consensus weight distances clusterings fine = Ok result /\
    label_of result a = Some la /\ label_of result b = Some lb /\ la <> lb.
Proof.
  intros Hcov Hf Hpf Ha Hb Hx Hy Hxy.
  destruct (consensus_solved weight distances clusterings fine Hcov)
    as (E & Hres & Htrans & Hhard & _).
  set (samples := consensus_samples clusterings) in *.
  destruct (position_some a samples Ha) as [i Hi].
  destruct (position_some b samples Hb) as [j Hj].
  exists (decode samples E), (label E (length samples) i),
         (label E (length samples) j).
  split; [assumption|].
  split; [apply label_of_decode; assumption|].
  split; [apply label_of_decode; assumption|].
  pose proof (position_lt _ _ _ Hi) as Hin.
  pose proof (position_lt _ _ _ Hj) as Hjn.
  intros Heq. apply (label_eq_iff E _ i j Htrans Hin Hjn) in Heq.
  assert (Hne : i <> j).
  { intros ->. apply position_lookup in Hi, Hj. congruence. }
  unfold hard_ok in Hhard. rewrite forallb_forall in Hhard.
  specialize (Hhard (f, pf) Hpf). simpl in Hhard.
  rewrite bool_decide_eq_true_2 in Hhard by assumption. simpl in Hhard.
  rewrite forallb_forall in Hhard.
  assert (Hsep : forall i' j', label_at pf samples i' = Some x ->
            label_at pf samples j' = Some y -> (i' < j' < length samples)%nat ->
            same E i' j' = false).
  { intros i' j' Hi' Hj' Hlt.
    specialize (Hhard (i', j') (proj2 (in_pairs _ _ _) Hlt)). simpl in Hhard.
    unfold separates in Hhard. rewrite Hi', Hj' in Hhard.
    replace (x =? y)%nat with false in Hhard
      by (symmetry; apply Nat.eqb_neq; assumption).
    simpl in Hhard. apply negb_true_iff in Hhard. assumption. }
  assert (Hli : label_at pf samples i = Some x)
    by (rewrite (label_at_position pf samples a i Hi); assumption).
  assert (Hlj : label_at pf samples j = Some y)
    by (rewrite (label_at_position pf samples b j Hj); assumption).
  destruct (Nat.lt_ge_cases i j) as [Hlt | Hge].
  - rewrite (Hsep i j) in Heq by (assumption || lia). discriminate.
  - assert (Hsep' : forall i' j', label_at pf samples i' = Some y ->
              label_at pf samples j' = Some x ->
              (i' < j' < length samples)%nat -> same E i' j' = false).
    { intros i' j' Hi' Hj' Hlt.
      specialize (Hhard (i', j') (proj2 (in_pairs _ _ _) Hlt)). simpl in Hhard.
      unfold separates in Hhard. rewrite Hi', Hj' in Hhard.
      replace (y =? x)%nat with false in Hhard
        by (symmetry; apply Nat.eqb_neq; congruence).
      simpl in Hhard. apply negb_true_iff in Hhard. assumption. }
    rewrite same_sym in Heq.
    rewrite (Hsep' j i) in Heq by (assumption || lia). discriminate.
Qed.

(** C5. Consensus of identical inputs: when every modality supplies the same
    clustering [P] (there is at least one modality and the weights are
    positive), the consensus solve returns a clustering of the samples of [P]
    that joins exactly the pairs [P] joins, which is [P] up to the names of
    the labels. *)
Theorem consensus_identical weight distances names P fine :
  names <> [] ->
  (forall m, In m names -> (0 < weight distances m)%Q) ->
  covers P (index P) = true ->
  exists result,
    consensus weight distances (map (fun m => (m, P)) names) fine = Ok result /\
    index result = index P /\
    forall a b, In a (index P) -> In b (index P) ->
      (label_of result a = label_of result b <->
       label_of P a = label_of P b).
Proof.
  intros Hne Hw HP.
  set (cl := map (fun m => (m, P)) names).
  assert (Hs : consensus_samples cl = index P).
  { unfold cl. destruct names; [congruence | reflexivity]. }
  assert (Hcov : forall mp, In mp cl ->
            covers (snd mp) (consensus_samples cl) = true).
  { intros mp Hin. apply in_map_iff in Hin as (m & <- & _). simpl.
    rewrite Hs. exact HP. }
  destruct (consensus_solved weight distances cl fine Hcov)
    as (E & Hres & Htrans & Hhard & Hmin).
  rewrite Hs in *.
  set (samples := index P) in *. set (n := length samples) in *.
  set (EP := List.filter (fun ij => joins P samples (fst ij) (snd ij)) (pairs n)).
  assert (HEPp : forall ij, In ij (pairs n) ->
            same EP (fst ij) (snd ij) = joins P samples (fst ij) (snd ij))
    by exact (same_induced P samples).
  assert (HEP : forall i j, (i < n)%nat -> (j < n)%nat ->
            same EP i j = joins P samples i j).
  { apply same_agrees.
    - apply joins_sym.
    - intros i Hi. apply joins_refl; assumption.
    - exact HEPp. }
  assert (Htri : forallb (triangle_ok EP) (triples n) = true).
  { apply forallb_forall. intros [[i j] k] Hin.
    apply in_triples in Hin as (Hi & Hj & Hk). apply triangle_ok_spec.
    rewrite !HEP by assumption. apply joins_trans. }
  assert (HhardP : hard_ok cl fine samples EP = true).
  { unfold hard_ok. apply forallb_forall. intros mp Hin.
    apply in_map_iff in Hin as (m & <- & _). simpl.
    apply orb_true_iff. right. apply forallb_forall. intros ij Hij.
    rewrite (HEPp ij Hij).
    unfold separates, joins.
    destruct (label_at P samples (fst ij)), (label_at P samples (snd ij));
      try reflexivity.
    destruct (n0 =? n1)%nat; reflexivity. }
  assert (Hzero : (consensus_objective (weight distances) cl samples EP == 0)%Q).
  { unfold consensus_objective. apply Qsum_zero. intros x Hx.
    apply in_map_iff in Hx as (mp & <- & Hmp).
    apply in_map_iff in Hmp as (m & <- & _). simpl.
    apply Qsum_zero. intros y Hy. apply in_map_iff in Hy as (ij & <- & Hij).
    unfold disagreement. rewrite (HEPp ij Hij).
    rewrite Bool.eqb_reflx. reflexivity. }
  specialize (Hmin EP (filter_in_sublists _ _) Htri HhardP).
  assert (Hagree : forall ij, In ij (pairs n) ->
            same E (fst ij) (snd ij) = joins P samples (fst ij) (snd ij)).
  { destruct names as [|m0 names']; [congruence|].
    intros ij Hij.
    assert (Hterm : forall m, In m (m0 :: names') -> forall y,
              In y (map (disagreement (weight distances m) P samples E) (pairs n)) ->
              (0 <= y)%Q).
    { intros m Hm y Hy. apply in_map_iff in Hy as (q & <- & _).
      unfold disagreement. specialize (Hw m Hm).
      destruct (Bool.eqb _ _); lra. }
    assert (Houter : forall x,
              In x (map (fun mp => Qsum (map
                     (disagreement (weight distances (fst mp)) (snd mp) samples E)
                     (pairs (length samples)))) cl) -> (0 <= x)%Q).
    { intros x Hx. apply in_map_iff in Hx as (mp & <- & Hmp).
      apply in_map_iff in Hmp as (m & <- & Hm). simpl.
      apply Qsum_nonneg. apply Hterm. assumption. }
    assert (Hle : (consensus_objective (weight distances) cl samples E <= 0)%Q)
      by lra.
    pose proof (Qsum_le_zero _ Houter Hle
      (Qsum (map (disagreement (weight distances m0) P samples E) (pairs n)))
      (or_introl eq_refl)) as Hz.
    assert (Hz' : (Qsum (map (disagreement (weight distances m0) P samples E)
                     (pairs n)) <= 0)%Q) by lra.
    pose proof (Qsum_le_zero _ (Hterm m0 (or_introl eq_refl)) Hz'
      (disagreement (weight distances m0) P samples E ij)
      (in_map _ _ _ Hij)) as Hd.
    unfold disagreement in Hd.
    destruct (Bool.eqb (same E (fst ij) (snd ij))
                (joins P samples (fst ij) (snd ij))) eqn:Hb.
    - apply Bool.eqb_prop in Hb. exact Hb.
    - specialize (Hw m0 (or_introl eq_refl)). lra. }
  assert (HE : forall i j, (i < n)%nat -> (j < n)%nat ->
            same E i j = joins P samples i j).
  { apply same_agrees.
    - apply joins_sym.
    - intros i Hi. apply joins_refl; assumption.
    - exact Hagree. }
  exists (decode samples E). split; [assumption|]. split; [reflexivity|].
  intros a b Ha Hb.
  destruct (position_some a samples Ha) as [i Hi].
  destruct (position_some b samples Hb) as [j Hj].
  pose proof (position_lt _ _ _ Hi) as Hin.
  pose proof (position_lt _ _ _ Hj) as Hjn.
  rewrite (label_of_decode samples E a i Hi), (label_of_decode samples E b j Hj).
  pose proof (HE i j Hin Hjn) as Hij. unfold joins in Hij.
  rewrite (label_at_position P samples a i Hi) in Hij.
  rewrite (label_at_position P samples b j Hj) in Hij.
  destruct (covers_label_at P samples i HP Hin) as [la Hla].
  destruct (covers_label_at P samples j HP Hjn) as [lb Hlb].
  rewrite (label_at_position P samples a i Hi) in Hla.
  rewrite (label_at_position P samples b j Hj) in Hlb.
  rewrite Hla, Hlb in *. split.
  - intros [= Heq]. apply (label_eq_iff E n i j Htrans Hin Hjn) in Heq.
    rewrite Hij in Heq. apply Nat.eqb_eq in Heq. congruence.
  - intros [= Heq]. f_equal. apply (label_eq_iff E n i j Htrans Hin Hjn).
    rewrite Hij. apply Nat.eqb_eq. assumption.
Qed.

(** The modelled solve returns the clustering of the optimum that the
    tie-break keeps. *)
Lemma correlation_solves m theta use_all :
  exists c, Cluster.correlation m theta use_all = Ok c /\
            solves m theta use_all c.
Proof.
  destruct (minimize_some (length (columns m))
              (fun E => forallb (triangle_ok E)
                          (constrained m theta use_all (length (columns m))))
              (correlation_objective m theta (length (columns m))) [])
    as [E HE].
  - apply nil_in_sublists.
  - apply nil_triangles.
  - exists (decode (columns m) E). split.
    + unfold Cluster.correlation. rewrite HE. reflexivity.
    + exists E. split; [|reflexivity]. apply minimize_chosen. exact HE.
Qed.

Lemma consensus_respects_fine_witness :
  exists result la lb,
    Cluster.consensus (fun _ m => if String.eqb m "Y" then 100%Q else 1%Q) []
      [("X", fine_partition); ("Y", example_partition)] ["X"] = Ok result /\
    label_of result "A" = Some la /\ label_of result "B" = Some lb /\
    la <> lb.
Proof.
  apply (consensus_respects_fine
           (fun _ m => if String.eqb m "Y" then 100%Q else 1%Q) []
           [("X", fine_partition); ("Y", example_partition)] ["X"]
           "X" fine_partition "A" "B" 0%nat 1%nat).
  - intros mp [<- | [<- | []]]; reflexivity.
  - constructor.
  - left. reflexivity.
  - left. reflexivity.
  - right. left. reflexivity.
  - reflexivity.
  - reflexivity.
  - discriminate.
Defined.

Lemma consensus_identical_witness :
  exists result,
    Cluster.consensus (fun _ _ => 1%Q) []
      [("X", example_partition); ("Y", example_partition)] [] = Ok result /\
    index result = ["A"; "B"; "C"; "D"] /\
    forall a b, In a ["A"; "B"; "C"; "D"] -> In b ["A"; "B"; "C"; "D"] ->
      (label_of result a = label_of result b <->
       label_of example_partition a = label_of example_partition b).
Proof.
  apply (consensus_identical (fun _ _ => 1%Q) [] ["X"; "Y"]
           example_partition []).
  - discriminate.
  - intros m _. reflexivity.
  - reflexivity.
Defined.

End SolverContract.

(** * Properties of the driver *)

Section DriverFacts.

Context `{Collaborators}.

Lemma bind_ok {A B} (m : M A) (k : A -> M B) w a w' :
  m w = (Ok a, w') -> bind m k w = k a w'.
Proof. intros Hm. unfold bind. rewrite Hm. reflexivity. Qed.

Lemma bind_raise {A B} (m : M A) (k : A -> M B) w e w' :
  m w = (Raise e, w') -> bind m k w = (Raise e, w').
Proof. intros Hm. unfold bind. rewrite Hm. reflexivity. Qed.

Lemma open_read_ok path w text :
  fs w !! path = Some text ->
  open_read path w = (Ok text, mkWorld (fs w) (trace w ++ [OpenRead path])).
Proof.
  intros Hfile. unfold open_read, emit, bind. simpl. rewrite Hfile.
  reflexivity.
Qed.

(** C10. With the new-config flag, [run_all] copies the bundled blank
    configuration to the given path and prints one message; it makes no other
    event: no file is read, nothing is validated, and no collaborator that
    builds a matrix, computes a clustering or writes one is called.  When the
    bundled file is missing, or is the target itself, the copy raises and
    nothing at all is written. *)
Theorem run_all_new_config (param : AllParam) (w : World) :
  new_config param = true ->
  let src := resource_filename "pathogist/resources/blank_config.yaml" in
  match fs w !! src with
  | Some text =>
      run_all param w =
        if String.eqb src (config param)
        then (Raise SameFileError,
              mkWorld (fs w) (trace w ++ [CopyFile src (config param)]))
        else (Ok tt,
              mkWorld (<[config param := text]> (fs w))
                (trace w ++
                 [CopyFile src (config param);
                  Print ("New configuration file written at " ++ config param)]))
  | None =>
      run_all param w =
        (Raise (FileNotFoundError src),
         mkWorld (fs w) (trace w ++ [CopyFile src (config param)]))
  end.
Proof.
  intros Hnew src. unfold run_all. rewrite Hnew. fold src.
  unfold copyfile, print, emit, bind. simpl.
  destruct (fs w !! src) as [text|]; simpl; [|reflexivity].
  destruct (String.eqb src (config param)); simpl; [reflexivity|].
  rewrite <- app_assoc. reflexivity.
Qed.

(** C6. A configuration that [yaml.load] rejects, or whose key sets break
    one of the three conditions (['distances'] and ['genotyping'] share a key,
    the keys of ['thresholds'] are not their union, ['fine_clusterings'] is
    not within it), ends [run_all] (without the new-config flag) with an
    exception whose exit status is not zero; up to then the configuration
    file was opened and parsed and nothing else happened: no genotyping call
    was read, no distance matrix built or read, no clustering computed, and
    the files are as before. *)
Theorem run_all_config_error (param : AllParam) (w : World) (text : string) :
  new_config param = false ->
  fs w !! config param = Some text ->
  (yaml_load text = None \/
   exists cfg dk gk tk fc,
     yaml_load text = Some cfg /\ key_sets cfg = Ok (dk, gk, tk, fc) /\
     (dk ∩ gk ≠ ∅ \/ tk ≠ dk ∪ gk \/ ¬ (fc ⊆ dk ∪ gk))) ->
  exists e evs,
    run_all param w = (Raise e, mkWorld (fs w) (trace w ++ evs)) /\
    exit_status e <> 0%nat /\
    Forall (fun ev => computes ev = false) evs.
Proof.
  intros Hnew Hfile Hbad. unfold run_all. rewrite Hnew.
  unfold open_read, emit, bind. simpl. rewrite Hfile.
  destruct Hbad as [Hparse | (cfg & dk & gk & tk & fc & Hparse & Hsets & Hbad)];
    rewrite Hparse.
  - exists (SystemExit 1), [OpenRead (config param); YamlLoad;
                           Print "<class 'yaml.error.YAMLError'>"].
    unfold print, raise, emit, bind. simpl. rewrite <- !app_assoc. simpl.
    split; [reflexivity|]. split; [discriminate|].
    repeat constructor.
  - unfold ret, check_config, lift, bind. simpl. rewrite Hsets.
    unfold py_assert, raise, ret.
    destruct (decide (dk ∩ gk = ∅)) as [Hd | Hd].
    2: { rewrite (bool_decide_eq_false_2 _ Hd).
         eexists _, [OpenRead (config param); YamlLoad].
         rewrite <- !app_assoc. simpl.
         split; [reflexivity|]. split; [discriminate | repeat constructor]. }
    rewrite (bool_decide_eq_true_2 _ Hd).
    destruct (decide (tk = dk ∪ gk)) as [Ht | Ht].
    2: { rewrite (bool_decide_eq_false_2 _ Ht).
         eexists _, [OpenRead (config param); YamlLoad].
         rewrite <- !app_assoc. simpl.
         split; [reflexivity|]. split; [discriminate | repeat constructor]. }
    rewrite (bool_decide_eq_true_2 _ Ht).
    destruct (decide (fc ⊆ dk ∪ gk)) as [Hf | Hf].
    2: { rewrite (bool_decide_eq_false_2 _ Hf).
         eexists _, [OpenRead (config param); YamlLoad].
         rewrite <- !app_assoc. simpl.
         split; [reflexivity|]. split; [discriminate | repeat constructor]. }
    destruct Hbad as [Hb | [Hb | Hb]]; contradiction.
Qed.

(** **** Lines of text *)

Lemma split_on_length sep s : length (split_on sep s) = S (count_char sep s).
Proof.
  induction s as [|c r IH]; simpl; [reflexivity|].
  destruct (Ascii.eqb c sep); simpl; [rewrite IH; reflexivity|].
  destruct (split_on sep r) as [|h t]; simpl in *; [discriminate | assumption].
Qed.

Lemma split_on_concat sep s :
  String.concat (String sep EmptyString) (split_on sep s) = s.
Proof.
  induction s as [|c r IH]; simpl; [reflexivity|].
  pose proof (split_on_length sep r) as Hlen.
  destruct (Ascii.eqb c sep) eqn:Hc.
  - apply Ascii.eqb_eq in Hc. subst c.
    destruct (split_on sep r) as [|h t]; [discriminate|].
    simpl in *. rewrite IH. reflexivity.
  - destruct (split_on sep r) as [|h t]; [discriminate|].
    destruct t as [|h' t']; simpl in *; rewrite <- IH; reflexivity.
Qed.

Lemma is_space_not_sep c : Ascii.eqb c "="%char = true -> is_space c = false.
Proof. intros Hc. apply Ascii.eqb_eq in Hc. subst c. reflexivity. Qed.

Lemma count_rstrip s :
  count_char "="%char (rstrip s) = count_char "="%char s.
Proof.
  induction s as [|c r IH]; simpl; [reflexivity|].
  destruct (rstrip r) as [|c' r'] eqn:Hr.
  - simpl in IH. rewrite <- IH.
    destruct (Ascii.eqb c "="%char) eqn:Hc.
    + rewrite (is_space_not_sep c Hc). simpl. rewrite Hc. reflexivity.
    + destruct (is_space c); simpl; rewrite ?Hc; reflexivity.
  - simpl. simpl in IH. rewrite IH. reflexivity.
Qed.

Lemma split_entry_bad line :
  count_char "="%char line <> 1%nat -> split_entry line = Raise ValueError.
Proof.
  intros Hn. unfold split_entry.
  pose proof (split_on_length "="%char (rstrip line)) as Hlen.
  rewrite count_rstrip in Hlen.
  destruct (split_on "="%char (rstrip line)) as [|a [|b [|c l]]];
    simpl in Hlen; try reflexivity.
  congruence.
Qed.

Lemma split_entry_good line :
  count_char "="%char line = 1%nat ->
  exists name path,
    split_entry line = Ok (name, path) /\
    rstrip line = (name ++ "=" ++ path)%string.
Proof.
  intros Hn. unfold split_entry.
  pose proof (split_on_length "="%char (rstrip line)) as Hlen.
  pose proof (split_on_concat "="%char (rstrip line)) as Hcat.
  rewrite count_rstrip, Hn in Hlen.
  destruct (split_on "="%char (rstrip line)) as [|a [|b [|c l]]];
    simpl in Hlen; try discriminate.
  exists a, b. split; [reflexivity|]. simpl in Hcat. symmetry. exact Hcat.
Qed.

(** **** Lines of a file *)

Lemma append_cons c (a b : string) : (String c a ++ b = String c (a ++ b))%string.
Proof. reflexivity. Qed.

Lemma append_nil (b : string) : ("" ++ b)%string = b.
Proof. reflexivity. Qed.

Lemma append_assoc_s (a b c : string) : ((a ++ b) ++ c = a ++ b ++ c)%string.
Proof.
  induction a as [|x a IH]; [reflexivity|].
  rewrite !append_cons, IH. reflexivity.
Qed.

Lemma append_empty_r (a : string) : (a ++ "")%string = a.
Proof.
  induction a as [|x a IH]; [reflexivity|]. rewrite append_cons, IH. reflexivity.
Qed.

Lemma count_char_app c (a b : string) :
  count_char c (a ++ b) = (count_char c a + count_char c b)%nat.
Proof.
  induction a as [|x a IH]; [reflexivity|].
  rewrite append_cons. cbn [count_char]. rewrite IH. lia.
Qed.

Lemma rstrip_newline l : rstrip (l ++ String "010"%char EmptyString) = rstrip l.
Proof.
  induction l as [|c l IH]; [reflexivity|].
  rewrite append_cons. cbn [rstrip]. rewrite IH. reflexivity.
Qed.

Lemma split_entry_newline l :
  split_entry (l ++ String "010"%char EmptyString) = split_entry l.
Proof. unfold split_entry. rewrite rstrip_newline. reflexivity. Qed.

Lemma one_line_head c l :
  one_line (String c l) ->
  Ascii.eqb c "010"%char = false /\ Ascii.eqb c "013"%char = false /\
  one_line l.
Proof.
  unfold one_line. cbn [count_char]. intros [Hlf Hcr].
  destruct (Ascii.eqb c "010"%char); [discriminate|].
  destruct (Ascii.eqb c "013"%char); [discriminate|].
  repeat split; assumption.
Qed.

(** A line, its line end and what follows: the line is handed over with a
    line feed.  A carriage return followed by a line feed is one line end,
    so that after a lone carriage return the rest may not begin with a line
    feed. *)
Lemma readlines_line l eol rest :
  one_line l -> In eol line_ends ->
  (eol = String "013"%char EmptyString ->
   forall r, rest <> String "010"%char r) ->
  readlines (l ++ eol ++ rest) =
    (l ++ String "010"%char EmptyString)%string :: readlines rest.
Proof.
  induction l as [|c l IH]; intros Hl Heol Hrest.
  - rewrite !append_nil.
    destruct Heol as [<- | [<- | [<- | []]]];
      rewrite ?append_cons, ?append_nil; try reflexivity.
    destruct rest as [|c' r']; [reflexivity|].
    destruct (Ascii.eqb c' "010"%char) eqn:Hc'.
    + apply Ascii.eqb_eq in Hc'. subst c'.
      exfalso. apply (Hrest eq_refl r'). reflexivity.
    + cbn [readlines]. rewrite Hc'. reflexivity.
  - apply one_line_head in Hl as (Hlf & Hcr & Hl).
    rewrite !append_cons. cbn [readlines]. rewrite Hlf, Hcr.
    rewrite (IH Hl Heol Hrest). reflexivity.
Qed.

Lemma readlines_last last :
  one_line last ->
  readlines last = match last with EmptyString => [] | _ => [last] end.
Proof.
  induction last as [|c l IH]; intros Hl; [reflexivity|].
  apply one_line_head in Hl as (Hlf & Hcr & Hl).
  cbn [readlines]. rewrite Hlf, Hcr, (IH Hl). destruct l; reflexivity.
Qed.

Lemma file_text_start eol ls last :
  eol = String "013"%char EmptyString ->
  Forall one_line ls -> one_line last ->
  forall r, (file_text eol ls ++ last)%string <> String "010"%char r.
Proof.
  intros -> Hls Hlast r.
  destruct ls as [|l ls]; cbn [file_text fold_right].
  - rewrite append_nil. destruct last as [|c last]; [discriminate|].
    apply one_line_head in Hlast as (Hlf & _ & _).
    intros [= -> _]. discriminate.
  - destruct l as [|c l].
    + rewrite append_nil, !append_cons. discriminate.
    + apply Forall_inv in Hls. apply one_line_head in Hls as (Hlf & _ & _).
      rewrite !append_cons. intros [= -> _]. discriminate.
Qed.

Lemma readlines_file eol ls last :
  In eol line_ends -> Forall one_line ls -> one_line last ->
  readlines (file_text eol ls ++ last) =
    map (fun l => l ++ String "010"%char EmptyString)%string ls ++
    match last with EmptyString => [] | _ => [last] end.
Proof.
  intros Heol Hls Hlast. induction ls as [|l ls IH].
  - cbn [file_text fold_right map]. rewrite append_nil.
    apply readlines_last. assumption.
  - cbn [file_text fold_right map]. fold (file_text eol ls).
    rewrite !append_assoc_s.
    rewrite readlines_line.
    + rewrite IH by (eapply Forall_inv_tail; eassumption). reflexivity.
    + eapply Forall_inv; eassumption.
    + assumption.
    + intros Hcr. apply file_text_start; try assumption.
      eapply Forall_inv_tail; eassumption.
Qed.

(** **** Dictionaries in insertion order *)

Lemma od_keys_set {A} (d : odict A) k v :
  od_keys (od_set d k v) =
    if bool_decide (k ∈ od_keys d) then od_keys d else od_keys d ++ [k].
Proof.
  induction d as [|[k' v'] d IH]; simpl; [reflexivity|].
  destruct (String.eqb k' k) eqn:Hk.
  - apply String.eqb_eq in Hk. subst k'. simpl.
    rewrite bool_decide_eq_true_2 by (left). reflexivity.
  - apply String.eqb_neq in Hk. simpl. rewrite IH.
    destruct (decide (k ∈ od_keys d)) as [Hin | Hin].
    + rewrite !bool_decide_eq_true_2; [reflexivity | right; assumption | assumption].
    + rewrite !bool_decide_eq_false_2; [reflexivity | | assumption].
      intros Hin'. apply elem_of_cons in Hin' as [-> | ?]; contradiction.
Qed.

Lemma od_get_set {A} (d : odict A) k v : od_get (od_set d k v) k = Some v.
Proof.
  unfold od_get. induction d as [|[k' v'] d IH]; simpl.
  - rewrite String.eqb_refl. reflexivity.
  - destruct (String.eqb k' k) eqn:Hk; simpl; rewrite Hk; [reflexivity | exact IH].
Qed.

Lemma od_set_fresh {A} (d : odict A) k v :
  k ∉ od_keys d -> od_set d k v = d ++ [(k, v)].
Proof.
  induction d as [|[k' v'] d IH]; simpl; intros Hk; [reflexivity|].
  apply not_elem_of_cons in Hk as [Hne Hk].
  replace (String.eqb k' k) with false
    by (symmetry; apply String.eqb_neq; congruence).
  rewrite IH by assumption. reflexivity.
Qed.

Lemma store_distinct {A} (items : list (string * string * A)) :
  forall d,
    NoDup (od_keys d ++ map (fun item => fst (fst item)) items) ->
    store items d = d ++ map (fun item => (fst (fst item), snd item)) items.
Proof.
  induction items as [|[[name path] x] items IH]; intros d Hnd; simpl.
  - rewrite app_nil_r. reflexivity.
  - simpl in Hnd.
    assert (Hfresh : name ∉ od_keys d).
    { apply list.NoDup_app in Hnd as (_ & Hdis & _). intros Hin.
      apply (Hdis name Hin). left. }
    rewrite od_set_fresh by assumption. rewrite IH.
    + rewrite <- app_assoc. reflexivity.
    + unfold od_keys in *. rewrite map_app. simpl. rewrite <- app_assoc. exact Hnd.
Qed.

(** **** The loop over a batch list *)

Lemma load_entry_ok {A} ev (open_file : value -> Files -> Result A)
    line d w name path x :
  split_entry line = Ok (name, path) ->
  open_file (YStr path) (fs w) = Ok x ->
  load_entry ev open_file line d w =
    (Ok (od_set d name x), mkWorld (fs w) (trace w ++ [ev (YStr path)])).
Proof.
  intros Hsplit Hopen.
  unfold load_entry, lift, call, emit, bind, ret. simpl.
  rewrite Hsplit. simpl. rewrite Hopen. reflexivity.
Qed.

Lemma load_loop_ok {A} ev (open_file : value -> Files -> Result A) files
    ls items :
  loads open_file files ls items ->
  forall d w, fs w = files ->
    for_each ls (load_entry ev open_file) d w =
      (Ok (store items d),
       mkWorld (fs w)
         (trace w ++ map (fun item => ev (YStr (snd (fst item)))) items)).
Proof.
  induction 1 as [|line [[name path] x] ls items [Hsplit Hopen] _ IH];
    intros d w Hw; simpl.
  - rewrite app_nil_r. destruct w. reflexivity.
  - simpl in Hsplit, Hopen. subst files.
    rewrite (bind_ok _ _ _ _ _ (load_entry_ok ev open_file line d w _ _ _
                                  Hsplit Hopen)).
    rewrite IH by reflexivity. simpl. rewrite <- app_assoc. reflexivity.
Qed.

Lemma load_loop_bad {A} ev (open_file : value -> Files -> Result A) files
    good items bad rest :
  loads open_file files good items ->
  split_entry bad = Raise ValueError ->
  forall d w, fs w = files ->
    for_each (good ++ bad :: rest) (load_entry ev open_file) d w =
      (Raise ValueError,
       mkWorld (fs w)
         (trace w ++ map (fun item => ev (YStr (snd (fst item)))) items)).
Proof.
  intros Hloads Hbad.
  induction Hloads as [|line [[name path] x] ls items [Hsplit Hopen] _ IH];
    intros d w Hw; simpl.
  - unfold bind, load_entry, lift. rewrite Hbad. rewrite app_nil_r.
    destruct w. reflexivity.
  - simpl in Hsplit, Hopen. subst files.
    rewrite (bind_ok _ _ _ _ _ (load_entry_ok ev open_file line d w _ _ _
                                  Hsplit Hopen)).
    rewrite IH by reflexivity. simpl. rewrite <- app_assoc. reflexivity.
Qed.

Lemma loads_newlines {A} (open_file : value -> Files -> Result A) files
    ls items :
  loads open_file files ls items ->
  loads open_file files
    (map (fun l => l ++ String "010"%char EmptyString)%string ls) items.
Proof.
  induction 1 as [|line item ls items [Hsplit Hopen] _ IH]; simpl.
  - constructor.
  - constructor; [|exact IH]. rewrite split_entry_newline. split; assumption.
Qed.

Lemma readlines_text eol ls :
  In eol line_ends -> Forall one_line ls ->
  readlines (file_text eol ls) =
    map (fun l => l ++ String "010"%char EmptyString)%string ls.
Proof.
  intros Heol Hls.
  rewrite <- (append_empty_r (file_text eol ls)).
  rewrite (readlines_file eol ls "" Heol Hls) by (split; reflexivity).
  apply app_nil_r.
Qed.

(** C9. The lines of a batch list are those of its file, whichever of the
    three line ends the file uses.  Every line is stripped on the right,
    split at every ['='] and unpacked into two values: a line whose number of
    ['='] is not one (a blank line, a line without ['='], a path with a
    ['=']) raises [ValueError], which nothing handles, and a line with
    exactly one is cut at it.  The loop stores the entries in the order of
    the lines, by [d[name] = content]: a new name goes last (a name that
    comes again keeps its place and takes the later content), so that
    entries of distinct names are stored in the order of their lines. *)
Theorem batch_list_entries {A} (ev : value -> Event)
    (open_file : value -> Files -> Result A) :
  (forall line, count_char "="%char line <> 1%nat ->
     split_entry line = Raise ValueError) /\
  (forall line, count_char "="%char line = 1%nat ->
     exists name path, split_entry line = Ok (name, path) /\
                       rstrip line = (name ++ "=" ++ path)%string) /\
  (forall w good items bad rest,
     loads open_file (fs w) good items ->
     count_char "="%char bad <> 1%nat ->
     load_entries ev open_file (good ++ bad :: rest) w =
       (Raise ValueError,
        mkWorld (fs w)
          (trace w ++ map (fun item => ev (YStr (snd (fst item)))) items))) /\
  (forall param w text good items bad rest,
     fs w !! distance_matrices param = Some text ->
     readlines text = good ++ bad :: rest ->
     loads open_distance_file (fs w) good items ->
     count_char "="%char bad <> 1%nat ->
     fst (consensus param w) = Raise ValueError) /\
  (forall w ls items,
     loads open_file (fs w) ls items ->
     load_entries ev open_file ls w =
       (Ok (store items []),
        mkWorld (fs w)
          (trace w ++ map (fun item => ev (YStr (snd (fst item)))) items)) /\
     (NoDup (map (fun item => fst (fst item)) items) ->
      store items [] = map (fun item => (fst (fst item), snd item)) items)) /\
  (forall (d : odict A) k v,
     od_get (od_set d k v) k = Some v /\
     od_keys (od_set d k v) =
       if bool_decide (k ∈ od_keys d) then od_keys d else od_keys d ++ [k]) /\
  (forall eol ls last,
     In eol line_ends -> Forall one_line ls -> one_line last ->
     readlines (file_text eol ls ++ last) =
       map (fun l => l ++ String "010"%char EmptyString)%string ls ++
       match last with EmptyString => [] | _ => [last] end) /\
  (forall w eol ls items,
     In eol line_ends -> Forall one_line ls ->
     loads open_file (fs w) ls items ->
     load_entries ev open_file (readlines (file_text eol ls)) w =
       (Ok (store items []),
        mkWorld (fs w)
          (trace w ++ map (fun item => ev (YStr (snd (fst item)))) items))) /\
  (forall param w eol good items bad rest,
     fs w !! distance_matrices param =
       Some (file_text eol (good ++ bad :: rest)) ->
     In eol line_ends -> Forall one_line (good ++ bad :: rest) ->
     loads open_distance_file (fs w) good items ->
     count_char "="%char bad <> 1%nat ->
     consensus param w =
       (Raise ValueError,
        mkWorld (fs w)
          (trace w ++
           [Log INFO "Getting distance matrices ...";
            OpenRead (distance_matrices param)] ++
           map (fun item => OpenDistanceFile (YStr (snd (fst item)))) items))).
Proof.
  split; [exact split_entry_bad|]. split; [exact split_entry_good|].
  split.
  { intros w good items bad rest Hloads Hbad. unfold load_entries.
    apply (load_loop_bad ev open_file (fs w)); auto using split_entry_bad. }
  split.
  { intros param w text good items bad rest Hfile Hlines Hloads Hbad.
    unfold consensus. erewrite bind_raise; [reflexivity|].
    unfold consensus_inputs.
    erewrite bind_ok by reflexivity.
    erewrite bind_ok by (apply open_read_ok; exact Hfile).
    erewrite bind_raise; [reflexivity|].
    rewrite Hlines. unfold load_entries.
    apply (load_loop_bad OpenDistanceFile open_distance_file (fs w)
             good items bad rest Hloads (split_entry_bad bad Hbad)).
    reflexivity. }
  split.
  { intros w ls items Hloads. split.
    - unfold load_entries. apply (load_loop_ok ev open_file (fs w)); auto.
    - intros Hnd. apply (store_distinct items []). simpl. exact Hnd. }
  split.
  { intros d k v. split; [apply od_get_set | apply od_keys_set]. }
  split; [exact readlines_file|].
  split.
  { intros w eol ls items Heol Hls Hloads.
    rewrite (readlines_text eol ls Heol Hls). unfold load_entries.
    apply (load_loop_ok ev open_file (fs w)); [|reflexivity].
    apply loads_newlines. exact Hloads. }
  intros param w eol good items bad rest Hfile Heol Hls Hloads Hbad.
  unfold consensus. apply bind_raise.
  unfold consensus_inputs.
  erewrite bind_ok by reflexivity.
  erewrite bind_ok by (apply open_read_ok; exact Hfile).
  apply bind_raise.
  rewrite (readlines_text eol _ Heol Hls), map_app. cbn [map].
  unfold load_entries. cbn [fs trace].
  rewrite (load_loop_bad OpenDistanceFile open_distance_file (fs w)
             _ items _ _ (loads_newlines _ _ _ _ Hloads)).
  - cbn [fs trace]. rewrite <- !app_assoc. reflexivity.
  - rewrite split_entry_newline. apply split_entry_bad. exact Hbad.
  - reflexivity.
Qed.

(** C8. The consensus subcommand does not look at the names of the fine
    list: once the two batch lists are loaded and compared, whatever the text
    of the fine-list file, every line of it (stripped on the right) is handed
    to the consensus solve, and an exception can only come out of the solve,
    the summary or the writing of the result.  [run_all], on the contrary,
    raises [AssertionError] when a name of ['fine_clusterings'] is no key of
    ['distances'] or ['genotyping']. *)
Theorem consensus_fine_unchecked :
  (forall param w w1 distances clusterings text,
     consensus_inputs param w = (Ok (distances, clusterings), w1) ->
     fs w1 !! fine_clusterings param = Some text ->
     let fine := YList (map YStr (map rstrip (readlines text))) in
     exists r w2 rest,
       consensus param w = (r, w2) /\
       trace w2 =
         trace w1 ++
         [Log INFO "Getting other metadata ...";
          OpenRead (fine_clusterings param);
          Log INFO "Creating and solving consensus clustering problem ...";
          Consensus distances clusterings fine] ++ rest /\
       forall e, r = Raise e ->
         cluster_consensus distances clusterings fine = Raise e \/
         (exists c, cluster_consensus distances clusterings fine = Ok c /\
                    summarize_clusterings c clusterings = Raise e) \/
         (exists c s, cluster_consensus distances clusterings fine = Ok c /\
                      summarize_clusterings c clusterings = Ok s /\
                      output_clustering s (YStr (cons_output_path param))
                        (fs w1) = Raise e)) /\
  (forall param w text cfg dk gk tk fc,
     new_config param = false ->
     fs w !! config param = Some text ->
     yaml_load text = Some cfg ->
     key_sets cfg = Ok (dk, gk, tk, fc) ->
     dk ∩ gk = ∅ -> tk = dk ∪ gk -> ¬ (fc ⊆ dk ∪ gk) ->
     fst (run_all param w) =
       Raise (AssertionError
         "A value in 'fine_clusterings' does not appear in 'genotyping' or 'distances'.")).
Proof.
  split.
  - intros param w w1 distances clusterings text Hin Hfile. cbv zeta.
    unfold consensus. rewrite (bind_ok _ _ _ _ _ Hin). simpl fst. simpl snd.
    unfold consensus_solve.
    unfold logger_info, open_read, call, write_clustering, emit, bind. simpl.
    rewrite Hfile. simpl.
    destruct (cluster_consensus distances clusterings _) as [c | e1] eqn:Hc.
    2: { eexists _, _, []. split; [reflexivity|]. simpl.
         rewrite <- !app_assoc. simpl. split; [reflexivity|].
         intros e [= <-]. left. reflexivity. }
    destruct (summarize_clusterings c clusterings) as [sm | e2] eqn:Hs.
    2: { eexists _, _, [_]. split; [reflexivity|]. simpl.
         rewrite <- !app_assoc. simpl. split; [reflexivity|].
         intros e [= <-]. right. left. eauto. }
    destruct (output_clustering sm (YStr (cons_output_path param)) (fs w1))
      as [files | e3] eqn:Ho.
    + eexists _, _, [_; _; _]. split; [reflexivity|]. simpl.
      rewrite <- !app_assoc. simpl. split; [reflexivity|].
      intros e [=].
    + eexists _, _, [_; _; _]. split; [reflexivity|]. simpl.
      rewrite <- !app_assoc. simpl. split; [reflexivity|].
      intros e [= <-]. right. right. eauto.
  - intros param w text cfg dk gk tk fc Hnew Hfile Hparse Hsets Hd Ht Hf.
    unfold run_all. rewrite Hnew.
    unfold open_read, emit, bind. simpl. rewrite Hfile, Hparse.
    unfold ret, check_config, lift, bind. simpl. rewrite Hsets.
    unfold py_assert, raise, ret.
    rewrite (bool_decide_eq_true_2 _ Hd), (bool_decide_eq_true_2 _ Ht),
      (bool_decide_eq_false_2 _ Hf).
    reflexivity.
Qed.

(** **** The comparison of the inputs *)

(** One comparison raises exactly when the sorted column labels differ; the
    row labels of the second input play no part. *)
Lemma check_pair_outcome {A} (d : odict (DataFrame A)) c1 c2 f1 f2 w :
  od_get d c1 = Some f1 -> od_get d c2 = Some f2 ->
  check_pair d c1 c2 w =
    (if bool_decide (sorted (columns f1) = sorted (columns f2))
     then Ok tt else Raise (AssertionError ""), w).
Proof.
  intros H1 H2. unfold check_pair, od_item, lift, bind, py_assert, ret, raise.
  rewrite H1, H2.
  destruct (decide (sorted (columns f1) = sorted (columns f2))) as [Heq | Hne].
  - rewrite (bool_decide_eq_true_2 _ Heq), Heq, !Nat.eqb_refl.
    rewrite bool_decide_eq_true_2 by reflexivity. reflexivity.
  - rewrite (bool_decide_eq_false_2 _ Hne).
    destruct (length (sorted (columns f1)) =? length (sorted (columns f2)))%nat;
      reflexivity.
Qed.

(** X3. Two inputs whose sets of column labels differ do not pass the
    comparison: it raises [AssertionError]. *)
Lemma check_pair_column_sets {A} (d : odict (DataFrame A)) c1 c2 f1 f2 w :
  od_get d c1 = Some f1 -> od_get d c2 = Some f2 ->
  (list_to_set (columns f1) : gset string) ≠ list_to_set (columns f2) ->
  check_pair d c1 c2 w = (Raise (AssertionError ""), w).
Proof.
  intros H1 H2 Hsets. rewrite (check_pair_outcome d c1 c2 f1 f2 w H1 H2).
  rewrite bool_decide_eq_false_2; [reflexivity|].
  intros Heq. apply Hsets.
  assert (Hperm : columns f1 ≡ₚ columns f2).
  { rewrite <- (merge_sort_Permutation str_le (columns f1)).
    rewrite <- (merge_sort_Permutation str_le (columns f2)).
    unfold sorted in Heq. rewrite Heq. reflexivity. }
  rewrite Hperm. reflexivity.
Qed.

Lemma od_get_key {A} (d : odict A) k :
  k ∈ od_keys d -> exists x, od_get d k = Some x.
Proof.
  unfold od_get. induction d as [|[k' v] d IH]; simpl; intros Hin.
  - apply elem_of_nil in Hin. destruct Hin.
  - destruct (String.eqb k' k) eqn:Hk; simpl; [eexists; reflexivity|].
    apply elem_of_cons in Hin as [-> | Hin];
      [rewrite String.eqb_refl in Hk; discriminate | apply IH; assumption].
Qed.

Lemma check_loop_outcome {A} (d : odict (DataFrame A)) (l : list (string * string)) :
  (forall c, In c l -> fst c ∈ od_keys d /\ snd c ∈ od_keys d) ->
  forall w,
    for_each l (fun c _ => check_pair d (fst c) (snd c)) tt w =
      (if forallb (fun c => bool_decide (sorted_columns d (fst c) =
                                         sorted_columns d (snd c))) l
       then Ok tt else Raise (AssertionError ""), w).
Proof.
  induction l as [|c l IH]; intros Hkeys w; simpl; [reflexivity|].
  destruct (Hkeys c (or_introl eq_refl)) as [Hk1 Hk2].
  destruct (od_get_key d _ Hk1) as [f1 Hf1].
  destruct (od_get_key d _ Hk2) as [f2 Hf2].
  unfold bind at 1. rewrite (check_pair_outcome d _ _ f1 f2 w Hf1 Hf2).
  assert (Hs1 : sorted_columns d (fst c) = sorted (columns f1))
    by (unfold sorted_columns; rewrite Hf1; reflexivity).
  assert (Hs2 : sorted_columns d (snd c) = sorted (columns f2))
    by (unfold sorted_columns; rewrite Hf2; reflexivity).
  assert (Hb : bool_decide (sorted_columns d (fst c) = sorted_columns d (snd c))
               = bool_decide (sorted (columns f1) = sorted (columns f2))).
  { apply bool_decide_ext. rewrite Hs1, Hs2. reflexivity. }
  rewrite Hb.
  destruct (bool_decide (sorted (columns f1) = sorted (columns f2))); simpl.
  - apply IH. intros c' Hc'. apply Hkeys. right. assumption.
  - reflexivity.
Qed.

Lemma in_combinations2 {A} (l : list A) c :
  In c (combinations2 l) -> In (fst c) l /\ In (snd c) l.
Proof.
  induction l as [|x r IH]; simpl; [intros []|].
  rewrite in_app_iff, in_map_iff. intros [(y & <- & Hy) | Hc]; simpl.
  - auto.
  - destruct (IH Hc). auto.
Qed.

(** X1. The comparisons of lines 119 to 127 and 137 to 145 as a whole: they end
    in [AssertionError] exactly when two of the inputs differ in their sorted
    column labels, and leave the world as it is.  Row labels never matter. *)
Theorem check_pairs_outcome {A} (d : odict (DataFrame A)) (w : World) :
  check_pairs d w =
    (if forallb (fun c => bool_decide (sorted_columns d (fst c) =
                                       sorted_columns d (snd c)))
                (combinations2 (od_keys d))
     then Ok tt else Raise (AssertionError ""), w).
Proof.
  unfold check_pairs. apply check_loop_outcome.
  intros c Hc. apply in_combinations2 in Hc as [H1 H2].
  split; apply list_elem_of_In; assumption.
Qed.

(** **** What [run_all] can reach *)

Lemma emits_ret P {A} (a : A) : emits_only P (ret a).
Proof. intros w. exists []. rewrite app_nil_r. split; reflexivity. Qed.

Lemma emits_raise P {A} (e : exn) : emits_only P (@raise A e).
Proof. intros w. exists []. rewrite app_nil_r. split; reflexivity. Qed.

Lemma emits_lift P {A} (r : Result A) : emits_only P (lift r).
Proof. intros w. exists []. rewrite app_nil_r. split; reflexivity. Qed.

Lemma emits_emit P ev : P ev = true -> emits_only P (emit ev).
Proof.
  intros HP w. exists [ev]. split; [reflexivity|]. simpl. rewrite HP.
  reflexivity.
Qed.

Lemma emits_bind P {A B} (m : M A) (k : A -> M B) :
  emits_only P m -> (forall a, emits_only P (k a)) -> emits_only P (bind m k).
Proof.
  intros Hm Hk w. destruct (Hm w) as (evs & Htr & HP). unfold bind.
  destruct (m w) as [[a | e] w'] eqn:Hmw; simpl in Htr.
  - destruct (Hk a w') as (evs' & Htr' & HP'). exists (evs ++ evs'). split.
    + rewrite Htr', Htr, app_assoc. reflexivity.
    + rewrite forallb_app, HP, HP'. reflexivity.
  - exists evs. auto.
Qed.

Lemma emits_bind_ok P {A B} (a : A) (k : A -> M B) :
  emits_only P (k a) -> emits_only P (bind (lift (Ok a)) k).
Proof. intros Hk w. exact (Hk w). Qed.

Lemma emits_call P {A} ev (f : Files -> Result A) :
  P ev = true -> emits_only P (call ev f).
Proof.
  intros HP. unfold call. apply emits_bind; [apply emits_emit; assumption|].
  intros _ w. exists []. rewrite app_nil_r. split; reflexivity.
Qed.

Lemma emits_for_each P {A S} (body : A -> S -> M S) (l : list A) :
  (forall x s, emits_only P (body x s)) ->
  forall s, emits_only P (for_each l body s).
Proof.
  intros Hbody. induction l as [|x r IH]; intros s; simpl.
  - apply emits_ret.
  - apply emits_bind; [apply Hbody | exact IH].
Qed.

Lemma emits_open_read P path :
  P (OpenRead path) = true -> emits_only P (open_read path).
Proof.
  intros HP. unfold open_read. apply emits_bind; [apply emits_emit; assumption|].
  intros _ w. exists []. rewrite app_nil_r.
  destruct (fs w !! path); split; reflexivity.
Qed.

Lemma emits_copyfile P src dst :
  P (CopyFile src dst) = true -> emits_only P (copyfile src dst).
Proof.
  intros HP. unfold copyfile. apply emits_bind; [apply emits_emit; assumption|].
  intros _ w. exists []. rewrite app_nil_r.
  destruct (fs w !! src); [destruct (String.eqb src dst)|]; split; reflexivity.
Qed.

Lemma emits_write P c path :
  P (OutputClustering c path) = true -> emits_only P (write_clustering c path).
Proof.
  intros HP. unfold write_clustering.
  apply emits_bind; [apply emits_emit; assumption|].
  intros _ w. exists []. rewrite app_nil_r.
  destruct (output_clustering c path (fs w)); split; reflexivity.
Qed.

Lemma emits_assert P cond msg : emits_only P (py_assert cond msg).
Proof.
  unfold py_assert. destruct cond; [apply emits_ret | apply emits_raise].
Qed.

Ltac emits_step :=
  cbv beta;
  first
    [ apply emits_ret
    | apply emits_raise
    | apply emits_lift
    | apply emits_assert
    | apply emits_emit; reflexivity
    | apply emits_call; reflexivity
    | apply emits_open_read; reflexivity
    | apply emits_copyfile; reflexivity
    | apply emits_write; reflexivity
    | apply emits_for_each; intros
    | apply emits_bind; [| intros] ].

Lemma emits_load_distances cfg : emits_only no_alignment (load_distances cfg).
Proof. unfold load_distances. repeat emits_step. Qed.

(** With one matrix or more the set of the sample sets raises; with none
    nothing is matched. *)
Lemma align_outcome distances w :
  align distances w =
    (match distances with
     | [] => Ok []
     | _ :: _ => Raise TypeError
     end, w).
Proof. destruct distances; reflexivity. Qed.

Lemma emits_cluster_nothing cfg : emits_only no_alignment (cluster_all cfg []).
Proof. unfold cluster_all. simpl. repeat emits_step. Qed.

Lemma emits_pipeline cfg : emits_only no_alignment (pipeline cfg).
Proof.
  unfold pipeline. apply emits_bind; [apply emits_load_distances|].
  intros distances w. unfold bind. rewrite align_outcome.
  destruct distances as [|kv distances].
  - apply emits_cluster_nothing.
  - exists []. rewrite app_nil_r. split; reflexivity.
Qed.

(** X2. In every world and for every configuration [run_all] ends without having
    logged the warning of the alignment step, called
    [match_distance_matrices] or called the correlation solve: with one
    matrix or more the set of sample sets raises [TypeError], and with none
    there is nothing to align or to cluster. *)
Theorem run_all_never_clusters (param : AllParam) :
  emits_only no_alignment (run_all param).
Proof.
  unfold run_all. destruct (new_config param).
  - repeat emits_step.
  - apply emits_bind; [emits_step|]. intros text.
    apply emits_bind; [emits_step|]. intros _.
    apply emits_bind.
    { destruct (yaml_load text); repeat emits_step. }
    intros cfg. apply emits_bind; [|intros _; apply emits_pipeline].
    unfold check_config. apply emits_bind; [emits_step|].
    intros [[[dk gk] tk] fc]. repeat emits_step.
Qed.

(** C7. Determinism of the correlation solve.  Section 4.3 leaves the
    backend free in how it searches, and asks for an optimum with ties broken
    in lexicographic sample order.  For a matrix, a threshold and a flag there
    is exactly one clustering that a call may return under these terms: two
    calls that both meet them return identical clusterings, whatever the two
    backends did.  The modelled solve returns this clustering, and two runs of
    the correlation subcommand that read this matrix, from whatever two
    worlds, both hand it to the writer. *)
Theorem correlation_deterministic (param : CorrelationParam) (w1 w2 : World)
    (m : Frame) :
  (forall m theta use_all,
     cluster_correlation m (YNum theta) (YBool use_all) =
       Cluster.correlation m theta use_all) ->
  open_distance_file (YStr (corr_distance_matrix param)) (fs w1) = Ok m ->
  open_distance_file (YStr (corr_distance_matrix param)) (fs w2) = Ok m ->
  (forall c1 c2,
     Cluster.solves m (corr_threshold param) (corr_all_constraints param) c1 ->
     Cluster.solves m (corr_threshold param) (corr_all_constraints param) c2 ->
     c1 = c2) /\
  exists c,
    Cluster.solves m (corr_threshold param) (corr_all_constraints param) c /\
    Cluster.correlation m (corr_threshold param) (corr_all_constraints param)
      = Ok c /\
    In (OutputClustering c (YStr (corr_output_path param)))
       (trace (snd (correlation param w1))) /\
    In (OutputClustering c (YStr (corr_output_path param)))
       (trace (snd (correlation param w2))).
Proof.
  intros Hsolver Hopen1 Hopen2.
  split; [intros c1 c2; apply solves_unique|].
  destruct (correlation_solves m (corr_threshold param)
              (corr_all_constraints param)) as (c & Hc & Hsolves).
  exists c. split; [exact Hsolves|]. split; [exact Hc|].
  assert (Hrun : forall w,
            open_distance_file (YStr (corr_distance_matrix param)) (fs w) = Ok m ->
            In (OutputClustering c (YStr (corr_output_path param)))
               (trace (snd (correlation param w)))).
  { intros w Hopen.
    unfold correlation, logger_debug, call, write_clustering, emit, bind.
    simpl. rewrite Hopen, Hsolver, Hc. simpl.
    destruct (output_clustering _ _ _); simpl;
      apply in_or_app; right; left; reflexivity. }
  split; apply Hrun; assumption.
Qed.

End DriverFacts.

(** * The scenarios of the design document and other closed instances *)

(** C4. The scenario of the design document: on the four samples A, B, C, D
    with dissimilarity 1 inside {A,B} and {C,D} and 9 across, threshold 5 and
    all constraints, the correlation solve returns the clustering whose
    clusters are {A,B} and {C,D}; the correlation subcommand, given the file
    of this matrix, hands that clustering to the writer. *)
Theorem correlation_example :
  exists c,
    Cluster.correlation example_matrix 5 true = Ok c /\
    Cluster.blocks c = [["A"; "B"]; ["C"; "D"]] /\
    In (OutputClustering c (YStr "out.tsv"))
       (trace (snd (@correlation example_collaborators
                      example_correlation_param example_world))).
Proof.
  eexists. split; [vm_compute; reflexivity|].
  split; [vm_compute; reflexivity|].
  vm_compute. do 5 right. left. reflexivity.
Qed.

(** C2 (the code as it is). Two distance matrices and two clusterings whose
    columns agree and whose row labels differ go through the comparisons of
    the consensus subcommand: the solve is called, the result is written and
    the command ends without an exception. *)
Theorem consensus_row_mismatch_undetected :
  index example_matrix <> index relabelled_matrix /\
  index example_partition <> index five_partition /\
  let r := @consensus example_collaborators example_consensus_param
             example_world in
  fst r = Ok tt /\
  existsb is_consensus (trace (snd r)) = true /\
  fs (snd r) !! "out.tsv" = Some "A,B,C,D".
Proof.
  split; [discriminate|]. split; [discriminate|].
  vm_compute. auto.
Qed.

(** C3 (the code as it is). With one pre-built distance matrix, and with two
    over different samples, [run_all] raises [TypeError] where it builds the
    set of the sample sets: the matrices are read, and then nothing is
    logged, matched or clustered. *)
Theorem run_all_alignment_raises :
  let one := @run_all example_collaborators (mkAllParam "valid.yaml" false)
               example_world in
  let two := @run_all example_collaborators (mkAllParam "two.yaml" false)
               example_world in
  fst one = Raise TypeError /\
  trace (snd one) =
    [OpenRead "valid.yaml"; YamlLoad;
     Log INFO "Reading genotyping calls ...";
     Log INFO "Creating distance matrices ...";
     Log INFO "Reading distance matrices ...";
     OpenDistanceFile (YStr "snp.tsv")] /\
  fst two = Raise TypeError /\
  trace (snd two) =
    [OpenRead "two.yaml"; YamlLoad;
     Log INFO "Reading genotyping calls ...";
     Log INFO "Creating distance matrices ...";
     Log INFO "Reading distance matrices ...";
     OpenDistanceFile (YStr "snp.tsv"); OpenDistanceFile (YStr "mlst.tsv")].
Proof.
  vm_compute. auto.
Qed.

(** The tie-break decides: on [tied_matrix] with threshold 5 the clustering
    that joins A with B and the one that joins B with C both come from an
    optimum of the model. *)
Lemma correlation_ties :
  exists c1 c2,
    Cluster.solves_untied tied_matrix 5 true c1 /\
    Cluster.solves_untied tied_matrix 5 true c2 /\
    c1 <> c2.
Proof.
  exists (Cluster.decode ["A"; "B"; "C"] [(0, 1)%nat]),
         (Cluster.decode ["A"; "B"; "C"] [(1, 2)%nat]).
  split; [|split; [|discriminate]].
  - exists [(0, 1)%nat]. split; [|reflexivity].
    split; [vm_compute; tauto|]. split; [reflexivity|].
    intros E' HE' Hfe. apply Qle_bool_iff.
    vm_compute in HE'.
    repeat (destruct HE' as [<- | HE'];
            [first [vm_compute; reflexivity | vm_compute in Hfe; discriminate]|]).
    destruct HE'.
  - exists [(1, 2)%nat]. split; [|reflexivity].
    split; [vm_compute; tauto|]. split; [reflexivity|].
    intros E' HE' Hfe. apply Qle_bool_iff.
    vm_compute in HE'.
    repeat (destruct HE' as [<- | HE'];
            [first [vm_compute; reflexivity | vm_compute in Hfe; discriminate]|]).
    destruct HE'.
Qed.

Lemma run_all_new_config_witness :
  new_config (mkAllParam "new.yaml" true) = true /\
  @run_all example_collaborators (mkAllParam "new.yaml" true) example_world =
    (Ok tt,
     mkWorld (<["new.yaml" := "blank"]> example_files)
       [CopyFile "/site-packages/pathogist/resources/blank_config.yaml"
          "new.yaml";
        Print "New configuration file written at new.yaml"]).
Proof.
  split; [reflexivity|].
  exact (@run_all_new_config example_collaborators
           (mkAllParam "new.yaml" true) example_world eq_refl).
Defined.

Lemma run_all_config_error_witness :
  (exists e evs,
     @run_all example_collaborators (mkAllParam "broken.yaml" false)
       example_world = (Raise e, mkWorld example_files ([] ++ evs)) /\
     exit_status e <> 0%nat /\ Forall (fun ev => computes ev = false) evs) /\
  (exists e evs,
     @run_all example_collaborators (mkAllParam "overlap.yaml" false)
       example_world = (Raise e, mkWorld example_files ([] ++ evs)) /\
     exit_status e <> 0%nat /\ Forall (fun ev => computes ev = false) evs).
Proof.
  split.
  - apply (@run_all_config_error example_collaborators
             (mkAllParam "broken.yaml" false) example_world "{").
    + reflexivity.
    + reflexivity.
    + left. reflexivity.
  - apply (@run_all_config_error example_collaborators
             (mkAllParam "overlap.yaml" false) example_world "overlap").
    + reflexivity.
    + reflexivity.
    + right.
      exists overlap_config, (set_of_strings ["SNP"]), (set_of_strings ["SNP"]),
             (set_of_strings ["SNP"]), ∅.
      split; [reflexivity|]. split; [reflexivity|]. left.
      apply (bool_decide_eq_false_1 _). vm_compute. reflexivity.
Defined.

Lemma correlation_deterministic_witness :
  (forall c1 c2,
     Cluster.solves example_matrix 5 true c1 ->
     Cluster.solves example_matrix 5 true c2 -> c1 = c2) /\
  exists c,
    Cluster.solves example_matrix 5 true c /\
    Cluster.correlation example_matrix 5 true = Ok c /\
    In (OutputClustering c (YStr "out.tsv"))
       (trace (snd (@correlation example_collaborators
                      example_correlation_param example_world))) /\
    In (OutputClustering c (YStr "out.tsv"))
       (trace (snd (@correlation example_collaborators
                      example_correlation_param
                      (mkWorld (<["notes.txt" := "x"]> example_files)
                               [Print "an earlier run"])))).
Proof.
  apply (@correlation_deterministic example_collaborators
           example_correlation_param example_world
           (mkWorld (<["notes.txt" := "x"]> example_files)
                    [Print "an earlier run"])
           example_matrix).
  - intros m theta use_all. reflexivity.
  - reflexivity.
  - reflexivity.
Defined.

Lemma consensus_fine_unchecked_witness :
  let distances := [("snp", example_matrix); ("mlst", relabelled_matrix)] in
  let clusterings := [("snp", example_partition); ("mlst", five_partition)] in
  let fine := YList [YStr "snp"; YStr "WGS"] in
  let w1 := snd (@consensus_inputs example_collaborators
                   example_consensus_param example_world) in
  (exists r w2 rest,
     @consensus example_collaborators example_consensus_param example_world
       = (r, w2) /\
     trace w2 =
       trace w1 ++
       [Log INFO "Getting other metadata ..."; OpenRead "fine.txt";
        Log INFO "Creating and solving consensus clustering problem ...";
        Consensus distances clusterings fine] ++ rest /\
     forall e, r = Raise e ->
       @cluster_consensus example_collaborators distances clusterings fine
         = Raise e \/
       (exists c,
          @cluster_consensus example_collaborators distances clusterings fine
            = Ok c /\
          @summarize_clusterings example_collaborators c clusterings
            = Raise e) \/
       (exists c s,
          @cluster_consensus example_collaborators distances clusterings fine
            = Ok c /\
          @summarize_clusterings example_collaborators c clusterings = Ok s /\
          @output_clustering example_collaborators s (YStr "out.tsv") (fs w1)
            = Raise e)) /\
  fst (@run_all example_collaborators (mkAllParam "stray.yaml" false)
         example_world) =
    Raise (AssertionError
      "A value in 'fine_clusterings' does not appear in 'genotyping' or 'distances'.").
Proof.
  destruct (@consensus_fine_unchecked example_collaborators) as [Hc Hr].
  split.
  - apply (Hc example_consensus_param example_world _ _ _
             ("snp" ++ nl ++ "WGS" ++ nl)%string).
    + vm_compute. reflexivity.
    + vm_compute. reflexivity.
  - apply (Hr (mkAllParam "stray.yaml" false) example_world "stray"
             stray_config (set_of_strings ["SNP"]) (set_of_strings [])
             (set_of_strings ["SNP"]) (set_of_strings ["WGS"])).
    + reflexivity.
    + reflexivity.
    + reflexivity.
    + vm_compute. reflexivity.
    + apply (bool_decide_eq_true_1 _). vm_compute. reflexivity.
    + apply (bool_decide_eq_true_1 _). vm_compute. reflexivity.
    + apply (bool_decide_eq_false_1 _). vm_compute. reflexivity.
Defined.

Lemma batch_list_entries_witness :
  split_entry nl = Raise ValueError /\
  split_entry ("snp.tsv" ++ nl) = Raise ValueError /\
  split_entry ("snp=runs/a=b.tsv" ++ nl) = Raise ValueError /\
  (exists name path,
     split_entry ("snp=snp.tsv  " ++ nl) = Ok (name, path) /\
     rstrip ("snp=snp.tsv  " ++ nl) = (name ++ "=" ++ path)%string) /\
  fst (@consensus example_collaborators
         (mkConsensusParam "blank_line.txt" "clusterings.txt" "fine.txt"
            "out.tsv" false) example_world) = Raise ValueError /\
  @load_entries Frame OpenDistanceFile
      (@open_distance_file example_collaborators)
      ["snp=snp.tsv" ++ nl; "mlst=relabelled.tsv" ++ nl]%string example_world =
    (Ok [("snp", example_matrix); ("mlst", relabelled_matrix)],
     mkWorld example_files
       [OpenDistanceFile (YStr "snp.tsv");
        OpenDistanceFile (YStr "relabelled.tsv")]) /\
  @load_entries Frame OpenDistanceFile
      (@open_distance_file example_collaborators)
      (readlines (file_text (String "013"%char EmptyString)
                    ["snp=snp.tsv"; "mlst=relabelled.tsv"])) example_world =
    (Ok [("snp", example_matrix); ("mlst", relabelled_matrix)],
     mkWorld example_files
       [OpenDistanceFile (YStr "snp.tsv");
        OpenDistanceFile (YStr "relabelled.tsv")]).
Proof.
  destruct (@batch_list_entries example_collaborators Frame OpenDistanceFile
              (@open_distance_file example_collaborators))
    as (Hbad & Hgood & Hloop & Hcons & Hok & Hdict & Hlines & Hfile & Htext).
  split; [apply Hbad; discriminate|].
  split; [apply Hbad; discriminate|].
  split; [apply Hbad; discriminate|].
  split; [apply Hgood; reflexivity|].
  split.
  { apply (Hcons _ example_world
             ("snp=snp.tsv" ++ nl ++ nl ++ "mlst=mlst.tsv" ++ nl)%string
             ["snp=snp.tsv" ++ nl]%string [("snp", "snp.tsv", example_matrix)]
             nl ["mlst=mlst.tsv" ++ nl]%string).
    - reflexivity.
    - reflexivity.
    - constructor; [split; reflexivity | constructor].
    - discriminate. }
  split.
  { destruct (Hok example_world
                ["snp=snp.tsv" ++ nl; "mlst=relabelled.tsv" ++ nl]%string
                [("snp", "snp.tsv", example_matrix);
                 ("mlst", "relabelled.tsv", relabelled_matrix)])
      as [Hrun Hstore].
    - constructor; [split; reflexivity|].
      constructor; [split; reflexivity | constructor].
    - rewrite Hrun. reflexivity. }
  rewrite (Hfile example_world (String "013"%char EmptyString)
             ["snp=snp.tsv"; "mlst=relabelled.tsv"]
             [("snp", "snp.tsv", example_matrix);
              ("mlst", "relabelled.tsv", relabelled_matrix)]).
  - reflexivity.
  - right. right. left. reflexivity.
  - constructor; [split; reflexivity|].
    constructor; [split; reflexivity | constructor].
  - constructor; [split; reflexivity|].
    constructor; [split; reflexivity | constructor].
Defined.

Lemma check_pair_column_sets_witness :
  @check_pair Q [("snp", example_matrix); ("mlst", other_matrix)] "snp" "mlst"
    example_world = (Raise (AssertionError ""), example_world).
Proof.
  apply (check_pair_column_sets
           [("snp", example_matrix); ("mlst", other_matrix)] "snp" "mlst"
           example_matrix other_matrix example_world).
  - reflexivity.
  - reflexivity.
  - apply (bool_decide_eq_false_1 _). vm_compute. reflexivity.
Defined.

(** * Further properties of the driver *)

Section MoreFacts.

Context `{Collaborators} {outputs : Outputs}.

(** **** Computations that only read the files *)

















(** **** Computations that write last *)









(** **** Levels of the log *)

Lemma emits_output P f : emits_only P (run_output f).
Proof.
  intros w. exists []. rewrite app_nil_r. unfold run_output.
  destruct (f (fs w)); split; reflexivity.
Qed.

Ltac log_step :=
  cbv beta;
  first
    [ apply emits_ret
    | apply emits_raise
    | apply emits_lift
    | apply emits_assert
    | apply emits_output
    | apply emits_emit; reflexivity
    | apply emits_call; reflexivity
    | apply emits_open_read; reflexivity
    | apply emits_copyfile; reflexivity
    | apply emits_write; reflexivity
    | apply emits_for_each; intros
    | apply emits_bind; [| intros] ].

Lemma quiet_load_entries {A} ev (open_file : value -> Files -> Result A) ls :
  (forall path, below_warning (ev path) = true) ->
  emits_only below_warning (load_entries ev open_file ls).
Proof.
  intros Hev. unfold load_entries. apply emits_for_each. intros line d.
  unfold load_entry. apply emits_bind; [apply emits_lift|]. intros [name path].
  apply emits_bind; [apply emits_call; apply Hev | intros; apply emits_ret].
Qed.

Lemma quiet_check_pairs {A} (d : odict (DataFrame A)) :
  emits_only below_warning (check_pairs d).
Proof. unfold check_pairs, check_pair. repeat log_step. Qed.

(** X5. Nothing is ever logged at warning level or above: every message of
    [run_all], [correlation], [consensus], [distance] and [visualize] is an
    info or a debug message. *)
Theorem never_logs_warning :
  (forall param, emits_only below_warning (run_all param)) /\
  (forall param, emits_only below_warning (correlation param)) /\
  (forall param, emits_only below_warning (consensus param)) /\
  (forall param, emits_only below_warning (distance param)) /\
  (forall param, emits_only below_warning (visualize param)).
Proof.
  split; [|split; [|split; [|split]]]; intros param.
  - unfold run_all. destruct (new_config param); [repeat log_step|].
    apply emits_bind; [log_step|]. intros text.
    apply emits_bind; [log_step|]. intros _.
    apply emits_bind; [destruct (yaml_load text); repeat log_step|]. intros cfg.
    apply emits_bind.
    { unfold check_config. apply emits_bind; [log_step|].
      intros [[[dk gk] tk] fc]. repeat log_step. }
    intros _. unfold pipeline, load_distances, align, cluster_all.
    apply emits_bind; [repeat log_step|]. intros distances.
    apply emits_bind.
    { apply emits_bind; [log_step|]. intros n.
      destruct (1 <? n)%nat; repeat log_step. }
    intros aligned. repeat log_step.
  - unfold correlation. repeat log_step.
  - unfold consensus, consensus_inputs, consensus_solve.
    repeat first [ apply quiet_load_entries; reflexivity
                 | apply quiet_check_pairs | log_step ].
  - unfold distance.
    do 5 (apply emits_bind; [log_step | intros]).
    match goal with
    | |- emits_only _ (match ?x with _ => _ end) => destruct x as [m|]
    end; repeat log_step.
  - unfold visualize. apply emits_bind; [log_step|]. intros _.
    apply emits_bind; [log_step|]. intros m.
    destruct (truthy (save_pdf param)); apply emits_output.
Qed.

(** **** What a run that succeeded went through *)

Lemma bind_inv_ok {A B} (m : M A) (k : A -> M B) w b w' :
  bind m k w = (Ok b, w') ->
  exists a w1, m w = (Ok a, w1) /\ k a w1 = (Ok b, w').
Proof.
  unfold bind. destruct (m w) as [[a | e] w1]; [eauto | discriminate].
Qed.

Lemma lift_inv_ok {A} (r : Result A) w a w' :
  lift r w = (Ok a, w') -> r = Ok a /\ w' = w.
Proof. unfold lift. intros [= -> ->]. auto. Qed.

Lemma open_read_inv path w text w' :
  open_read path w = (Ok text, w') -> fs w !! path = Some text.
Proof.
  unfold open_read, emit, bind. simpl.
  destruct (fs w !! path); [intros [= -> _]; reflexivity | discriminate].
Qed.

Lemma key_sets_inv cfg dk gk tk fc :
  key_sets cfg = Ok (dk, gk, tk, fc) ->
  exists dv dkl gv gkl tv tkl fv,
    getitem cfg "distances" = Ok dv /\ keys dv = Ok dkl /\
    getitem cfg "genotyping" = Ok gv /\ keys gv = Ok gkl /\
    getitem cfg "thresholds" = Ok tv /\ keys tv = Ok tkl /\
    getitem cfg "fine_clusterings" = Ok fv /\ py_set fv = Ok fc /\
    dk = set_of_strings dkl /\ gk = set_of_strings gkl /\
    tk = set_of_strings tkl.
Proof.
  unfold key_sets.
  destruct (getitem cfg "distances") as [dv|] eqn:H1; [|discriminate].
  destruct (keys dv) as [dkl|] eqn:H2; [|discriminate].
  destruct (getitem cfg "genotyping") as [gv|] eqn:H3; [|discriminate].
  destruct (keys gv) as [gkl|] eqn:H4; [|discriminate].
  destruct (getitem cfg "thresholds") as [tv|] eqn:H5; [|discriminate].
  destruct (keys tv) as [tkl|] eqn:H6; [|discriminate].
  destruct (getitem cfg "fine_clusterings") as [fv|] eqn:H7; [|discriminate].
  destruct (py_set fv) as [fc'|] eqn:H8; [|discriminate].
  intros [= <- <- <- <-]. exists dv, dkl, gv, gkl, tv, tkl, fv.
  repeat split; (assumption || reflexivity).
Qed.

Lemma check_config_inv cfg w w' :
  check_config cfg w = (Ok tt, w') ->
  exists dk gk tk fc,
    key_sets cfg = Ok (dk, gk, tk, fc) /\
    dk ∩ gk = ∅ /\ tk = dk ∪ gk /\ fc ⊆ dk ∪ gk.
Proof.
  unfold check_config, lift, bind, py_assert, ret, raise.
  destruct (key_sets cfg) as [[[[dk gk] tk] fc]|] eqn:Hsets; [|discriminate].
  destruct (decide (dk ∩ gk = ∅)) as [Hd | Hd];
    [rewrite (bool_decide_eq_true_2 _ Hd)
    | rewrite (bool_decide_eq_false_2 _ Hd); discriminate].
  destruct (decide (tk = dk ∪ gk)) as [Ht | Ht];
    [rewrite (bool_decide_eq_true_2 _ Ht)
    | rewrite (bool_decide_eq_false_2 _ Ht); discriminate].
  destruct (decide (fc ⊆ dk ∪ gk)) as [Hf | Hf];
    [rewrite (bool_decide_eq_true_2 _ Hf)
    | rewrite (bool_decide_eq_false_2 _ Hf); discriminate].
  intros _. exists dk, gk, tk, fc. auto.
Qed.

Lemma od_set_nonempty {A} (d : odict A) k v : od_set d k v <> [].
Proof.
  destruct d as [|[k' v'] d]; simpl; [discriminate|].
  destruct (String.eqb k' k); discriminate.
Qed.

Lemma for_each_grows {A B} (body : A -> odict B -> M (odict B)) :
  (forall x s w r w', body x s w = (Ok r, w') -> r <> []) ->
  forall l s w w', for_each l body s w = (Ok [], w') -> l = [] /\ s = [].
Proof.
  intros Hbody. induction l as [|x l IH]; intros s w w' Hr; simpl in Hr.
  - unfold ret in Hr. inversion Hr. auto.
  - apply bind_inv_ok in Hr as (s1 & w1 & Hx & Hl).
    destruct (IH s1 w1 w' Hl) as [_ ->]. destruct (Hbody x s w [] w1 Hx).
    reflexivity.
Qed.

Ltac grows :=
  let Hb := fresh "Hb" in
  intros ? ? ? ? ? Hb;
  repeat (apply bind_inv_ok in Hb as (? & ? & _ & Hb));
  unfold ret in Hb; inversion Hb; apply od_set_nonempty.

(** X6. A run of [run_all] on a configuration file ends without an exception
    only when the configuration names no modality at all: its ['distances'],
    ['genotyping'] and ['thresholds'] have no key and its
    ['fine_clusterings'] no item. *)
Theorem run_all_succeeds_only_empty (param : AllParam) (w w' : World) :
  new_config param = false ->
  run_all param w = (Ok tt, w') ->
  exists text cfg,
    fs w !! config param = Some text /\
    yaml_load text = Some cfg /\
    key_sets cfg = Ok (∅, ∅, ∅, ∅).
Proof.
  intros Hnew Hrun. unfold run_all in Hrun. rewrite Hnew in Hrun.
  apply bind_inv_ok in Hrun as (text & w1 & Hopen & Hrun).
  apply open_read_inv in Hopen.
  apply bind_inv_ok in Hrun as (u & w2 & _ & Hrun).
  apply bind_inv_ok in Hrun as (cfg & w3 & Hparse & Hrun).
  destruct (yaml_load text) as [cfg'|] eqn:Hyaml;
    [|unfold print, raise, emit, bind in Hparse; discriminate].
  unfold ret in Hparse. inversion Hparse; subst cfg' w3. clear Hparse.
  apply bind_inv_ok in Hrun as (u' & w4 & Hcheck & Hpipe). destruct u'.
  apply check_config_inv in Hcheck as (dk & gk & tk & fc & Hsets & Hd & Ht & Hf).
  unfold pipeline in Hpipe.
  apply bind_inv_ok in Hpipe as (d & w5 & Hload & Hrest).
  apply bind_inv_ok in Hrest as (d' & w6 & Halign & _).
  rewrite align_outcome in Halign. destruct d as [|kv d]; [|discriminate].
  unfold load_distances in Hload.
  apply bind_inv_ok in Hload as (? & ? & _ & Hload).
  apply bind_inv_ok in Hload as (gv & ? & Hg & Hload).
  apply lift_inv_ok in Hg as [Hg ->].
  apply bind_inv_ok in Hload as (gkl & ? & Hgk & Hload).
  apply lift_inv_ok in Hgk as [Hgk ->].
  apply bind_inv_ok in Hload as (calls & wc & Hcalls & Hload).
  apply bind_inv_ok in Hload as (? & ? & _ & Hload).
  apply bind_inv_ok in Hload as (d0 & wd & Hd0 & Hload).
  apply bind_inv_ok in Hload as (? & ? & _ & Hload).
  apply bind_inv_ok in Hload as (dv & ? & Hdv & Hload).
  apply lift_inv_ok in Hdv as [Hdv ->].
  apply bind_inv_ok in Hload as (dkl & ? & Hdk & Hload).
  apply lift_inv_ok in Hdk as [Hdk ->].
  apply for_each_grows in Hload as [-> ->]; [|grows].
  apply for_each_grows in Hd0 as [Hkeys _]; [|grows].
  destruct calls as [|c calls]; [|discriminate].
  apply for_each_grows in Hcalls as [-> _]; [|grows].
  apply key_sets_inv in Hsets as Hinv.
  destruct Hinv as (dv' & dkl' & gv' & gkl' & tv & tkl & fv & H1 & H2 & H3 &
                    H4 & _ & _ & _ & _ & -> & -> & _).
  assert (dv' = dv) as -> by congruence.
  assert (dkl' = []) as -> by congruence.
  assert (gv' = gv) as -> by congruence.
  assert (gkl' = []) as -> by congruence.
  exists text, cfg. split; [assumption|]. split; [assumption|].
  rewrite Hsets. unfold set_of_strings in *. simpl in *.
  rewrite union_empty_l_L in Ht, Hf. subst tk.
  apply equiv_empty_L in Hf. subst fc. reflexivity.
Qed.

(** **** Entries of a batch list *)

Lemma split_on_none sep s : count_char sep s = 0%nat -> split_on sep s = [s].
Proof.
  induction s as [|c r IH]; simpl; [reflexivity|].
  destruct (Ascii.eqb c sep); [discriminate|]. simpl. intros Hr.
  rewrite (IH Hr). reflexivity.
Qed.

Lemma split_on_first sep name rest :
  count_char sep name = 0%nat ->
  split_on sep (name ++ String sep rest) = name :: split_on sep rest.
Proof.
  induction name as [|c r IH]; simpl.
  - rewrite Ascii.eqb_refl. reflexivity.
  - destruct (Ascii.eqb c sep); [discriminate|]. simpl. intros Hr.
    rewrite (IH Hr). reflexivity.
Qed.

Lemma rstrip_after_sep name path :
  rstrip (name ++ String "="%char path) =
    (name ++ String "="%char (rstrip path))%string.
Proof.
  induction name as [|c r IH]; simpl.
  - destruct (rstrip path); reflexivity.
  - rewrite IH. destruct r; reflexivity.
Qed.

(** X7. An entry [name=path] of a batch list is read back as it was written
    but for the white space that ends the line: the name keeps every blank
    it has, before and after, and so does the path in front. *)
Theorem split_entry_round_trip (name path : string) :
  count_char "="%char name = 0%nat ->
  count_char "="%char path = 0%nat ->
  split_entry (name ++ "=" ++ path) = Ok (name, rstrip path).
Proof.
  intros Hname Hpath. unfold split_entry.
  change (name ++ "=" ++ path)%string with (name ++ String "="%char path)%string.
  rewrite rstrip_after_sep, (split_on_first _ _ _ Hname).
  rewrite split_on_none by (rewrite count_rstrip; assumption).
  reflexivity.
Qed.

(** **** Options that have no effect *)

(** X8. The flag [-a] of the consensus subcommand has no effect: two runs
    that differ in it alone end in the same result and the same world. *)
Theorem consensus_ignores_all_constraints
    (dm cl fine out : string) (flag1 flag2 : bool) (w : World) :
  consensus (mkConsensusParam dm cl fine out flag1) w =
  consensus (mkConsensusParam dm cl fine out flag2) w.
Proof. reflexivity. Qed.

(** X9. The directory given with [-p] never reaches the plot: any two
    directories (not empty) give the same run, in which the keyword [pdf] is
    passed as [None]. *)
Theorem visualize_ignores_directory (file name dir1 dir2 : string) (w : World) :
  dir1 <> "" -> dir2 <> "" ->
  visualize (mkVisualizeParam file (Some dir1) name) w =
  visualize (mkVisualizeParam file (Some dir2) name) w /\
  visualize (mkVisualizeParam file (Some dir1) name) w =
    bind (logger_info "Visualizing distance matrix ...") (fun _ =>
      bind (call (OpenDistanceFile (YStr file)) (open_distance_file (YStr file)))
        (fun m => run_output (visualize_matrix m (YStr name) (Some YNull)))) w.
Proof.
  intros H1 H2. destruct dir1; [congruence|]. destruct dir2; [congruence|].
  split; reflexivity.
Qed.

(** **** Names of genotypes *)

Lemma no_reader t :
  t ∉ ["SNP"; "MLST"; "CNV"] -> od_get read_genotyping_calls t = None.
Proof.
  intros Hnot.
  assert (H1 : String.eqb "SNP" t = false)
    by (apply String.eqb_neq; intros <-; apply Hnot; set_solver).
  assert (H2 : String.eqb "MLST" t = false)
    by (apply String.eqb_neq; intros <-; apply Hnot; set_solver).
  assert (H3 : String.eqb "CNV" t = false)
    by (apply String.eqb_neq; intros <-; apply Hnot; set_solver).
  unfold od_get, read_genotyping_calls. cbn [List.find fst].
  rewrite H1, H2, H3. reflexivity.
Qed.

(** X10. A data type other than SNP, MLST and CNV makes [distance] raise
    [KeyError] right after its first message: no file is read and none is
    written. *)
Theorem distance_unknown_type (param : DistanceParam) (w : World) :
  data_type param ∉ ["SNP"; "MLST"; "CNV"] ->
  distance param w =
    (Raise (KeyError (data_type param)),
     mkWorld (fs w) (trace w ++ [Log INFO "Creating distance matrix ..."])).
Proof.
  intros Hnot. unfold distance, od_item, logger_info, lift, emit, bind. simpl.
  rewrite (no_reader _ Hnot). reflexivity.
Qed.

(** **** Configurations that do not pass *)

(** The run up to the checks of lines 42 to 51. *)
Lemma run_all_until_check param w text cfg :
  new_config param = false ->
  fs w !! config param = Some text ->
  yaml_load text = Some cfg ->
  run_all param w =
    bind (check_config cfg) (fun _ => pipeline cfg)
      (mkWorld (fs w) (trace w ++ [OpenRead (config param); YamlLoad])).
Proof.
  intros Hnew Hfile Hyaml. unfold run_all. rewrite Hnew.
  rewrite (bind_ok _ _ _ _ _ (open_read_ok _ _ _ Hfile)).
  unfold emit at 1. unfold bind at 1. rewrite Hyaml.
  unfold ret at 1. unfold bind at 1. simpl.
  rewrite <- app_assoc. reflexivity.
Qed.




(** X12. When ['fine_clusterings'] is a name instead of a list of names, the
    set built from it is the set of its characters: unless the modalities
    have names of one character, [run_all] ends in [AssertionError] right
    after the file is parsed. *)
Theorem run_all_scalar_fine (param : AllParam) (w : World) (text : string)
    (cfg : value) (dk gk tk fc : gset atom) (s : string) :
  new_config param = false ->
  fs w !! config param = Some text ->
  yaml_load text = Some cfg ->
  key_sets cfg = Ok (dk, gk, tk, fc) ->
  getitem cfg "fine_clusterings" = Ok (YStr s) ->
  s <> "" ->
  (forall name, AStr name ∈ dk ∪ gk -> String.length name <> 1%nat) ->
  exists msg,
    run_all param w =
      (Raise (AssertionError msg),
       mkWorld (fs w) (trace w ++ [OpenRead (config param); YamlLoad])).
Proof.
  intros Hnew Hfile Hyaml Hsets Hfine Hs Hnames.
  rewrite (run_all_until_check param w text _ Hnew Hfile Hyaml).
  assert (Hnot : ¬ (fc ⊆ dk ∪ gk)).
  { apply key_sets_inv in Hsets as Hinv.
    destruct Hinv as (dv & dkl & gv & gkl & tv & tkl & fv & _ & _ & _ & _ &
                      _ & _ & Hf & Hset & _).
    rewrite Hfine in Hf. inversion Hf; subst fv. simpl in Hset.
    inversion Hset; subst fc. destruct s as [|c r]; [congruence|].
    intros Hsub.
    assert (Hin : AStr (String c EmptyString) ∈ set_of_strings (chars (String c r))).
    { unfold set_of_strings. simpl. set_solver. }
    apply (Hnames _ (Hsub _ Hin)). reflexivity. }
  unfold check_config, lift, bind. rewrite Hsets.
  unfold py_assert, raise, ret.
  destruct (bool_decide (dk ∩ gk = ∅)); [|eexists; reflexivity].
  destruct (bool_decide (tk = dk ∪ gk)); [|eexists; reflexivity].
  rewrite (bool_decide_eq_false_2 _ Hnot). eexists. reflexivity.
Qed.




(** **** The matrix that [distance] writes *)

Lemma call_inv_ok {A} ev (f : Files -> Result A) w a w' :
  call ev f w = (Ok a, w') ->
  f (fs w) = Ok a /\ fs w' = fs w.
Proof.
  unfold call, emit, bind. simpl. intros Hr. inversion Hr. auto.
Qed.

Lemma od_item_inv {A} (d : odict A) k x :
  od_item d k = Ok x -> od_get d k = Some x.
Proof.
  unfold od_item. destruct (od_get d k); [intros [= ->]; reflexivity | discriminate].
Qed.

Lemma od_get_in {A} (d : odict A) k x : od_get d k = Some x -> In (k, x) d.
Proof.
  unfold od_get. induction d as [|[k' v] d IH]; simpl; [discriminate|].
  destruct (String.eqb k' k) eqn:Hk; simpl.
  - intros [= ->]. apply String.eqb_eq in Hk. subst. left. reflexivity.
  - intros Hx. right. apply IH. assumption.
Qed.

(** X15. When [distance] ends without an exception, the data type is SNP,
    MLST or CNV and the calls were read by the reader of that data type.
    Then either the builder of that data type handed back [None], and the run
    ended there: nothing was written and nothing more was logged; or the
    builder made a matrix of the calls, and the files are those that
    [write_distance_matrix] left when it wrote this matrix. *)
Theorem distance_writes_built_matrix (param : DistanceParam) (w w' : World) :
  distance param w = (Ok tt, w') ->
  exists reader create calls,
    In (data_type param, reader) read_genotyping_calls /\
    In (data_type param, create) create_genotype_distance /\
    reader (YStr (calls_path param)) (fs w) = Ok calls /\
    ((returns_none (data_type param) calls = true /\
      w' = mkWorld (fs w)
             (trace w ++
              [Log INFO "Creating distance matrix ...";
               ReadCalls (data_type param) (YStr (calls_path param));
               CreateDistance (data_type param)])) \/
     (returns_none (data_type param) calls = false /\
      exists m,
        create calls = Ok m /\
        write_distance_matrix m (YStr (dist_output_path param)) (fs w) =
          Ok (fs w') /\
        trace w' =
          trace w ++
          [Log INFO "Creating distance matrix ...";
           ReadCalls (data_type param) (YStr (calls_path param));
           CreateDistance (data_type param);
           Log INFO "Writing distance matrix ...";
           Log INFO "Distance matrix creation complete!"])).
Proof.
  intros Hrun. unfold distance in Hrun.
  apply bind_inv_ok in Hrun as (u & w1 & Hlog & Hrun).
  unfold logger_info, emit in Hlog. inversion Hlog; subst u w1. clear Hlog.
  apply bind_inv_ok in Hrun as (reader & w2 & Hreader & Hrun).
  apply lift_inv_ok in Hreader as [Hreader ->].
  apply bind_inv_ok in Hrun as (calls & w3 & Hcalls & Hrun).
  unfold call, emit, bind in Hcalls. cbn [fs trace] in Hcalls.
  destruct (reader (YStr (calls_path param)) (fs w)) as [calls'|] eqn:Hread;
    [|discriminate].
  inversion Hcalls; subst calls' w3. clear Hcalls.
  apply bind_inv_ok in Hrun as (create & w4 & Hcreate & Hrun).
  apply lift_inv_ok in Hcreate as [Hcreate ->].
  apply bind_inv_ok in Hrun as (built & w5 & Hbuilt & Hrun).
  unfold call, emit, bind in Hbuilt. cbn [fs trace] in Hbuilt.
  destruct (build_or_none (data_type param) create calls) as [built'|]
    eqn:Hbuild; [|discriminate].
  inversion Hbuilt; subst built' w5. clear Hbuilt.
  exists reader, create, calls.
  split; [apply od_get_in, od_item_inv; assumption|].
  split; [apply od_get_in, od_item_inv; assumption|].
  split; [exact Hread|].
  unfold build_or_none in Hbuild.
  destruct (returns_none (data_type param) calls).
  - left. split; [reflexivity|].
    inversion Hbuild; subst built. unfold ret in Hrun.
    inversion Hrun. rewrite <- !app_assoc. reflexivity.
  - right. split; [reflexivity|].
    destruct (create calls) as [m|] eqn:Hm; [|discriminate].
    inversion Hbuild; subst built. exists m. split; [reflexivity|].
    apply bind_inv_ok in Hrun as (u2 & w6 & Hlog2 & Hrun).
    unfold logger_info, emit in Hlog2. inversion Hlog2; subst u2 w6.
    clear Hlog2.
    apply bind_inv_ok in Hrun as (u3 & w7 & Hwrite & Hlog3).
    unfold run_output in Hwrite. cbn [fs trace] in Hwrite.
    destruct (write_distance_matrix m (YStr (dist_output_path param)) (fs w))
      as [files|] eqn:Hfiles; [|discriminate].
    inversion Hwrite; subst u3 w7. clear Hwrite.
    unfold logger_info, emit in Hlog3. inversion Hlog3. cbn [fs trace].
    split; [reflexivity|]. rewrite <- !app_assoc. reflexivity.
Qed.

(** **** Inputs of the consensus that do not match *)

(** X14. When two of the distance matrices of the consensus subcommand
    differ in their sorted column labels, the run ends in [AssertionError]
    once the matrices are loaded: the list of clusterings is not opened, the
    solve is not called and nothing is written. *)
Theorem consensus_column_mismatch (param : ConsensusParam) (w : World)
    (text : string) (items : list (string * string * Frame))
    (k1 k2 : string) :
  fs w !! distance_matrices param = Some text ->
  loads open_distance_file (fs w) (readlines text) items ->
  In (k1, k2) (combinations2 (od_keys (store items []))) ->
  sorted_columns (store items []) k1 <> sorted_columns (store items []) k2 ->
  consensus param w =
    (Raise (AssertionError ""),
     mkWorld (fs w)
       (trace w ++
        Log INFO "Getting distance matrices ..." ::
        OpenRead (distance_matrices param) ::
        map (fun item => OpenDistanceFile (YStr (snd (fst item)))) items)).
Proof.
  intros Hfile Hloads Hin Hne.
  unfold consensus. apply bind_raise. unfold consensus_inputs.
  erewrite bind_ok by reflexivity.
  erewrite bind_ok by (apply open_read_ok; exact Hfile).
  unfold load_entries.
  erewrite bind_ok
    by (apply (load_loop_ok OpenDistanceFile open_distance_file (fs w)
                 (readlines text) items Hloads); reflexivity).
  apply bind_raise. unfold check_pairs.
  rewrite check_loop_outcome.
  - destruct (forallb _ _) eqn:Hall.
    + rewrite forallb_forall in Hall. specialize (Hall (k1, k2) Hin).
      apply bool_decide_eq_true_1 in Hall. contradiction.
    + cbn [fs trace]. rewrite <- !app_assoc. reflexivity.
  - intros c Hc. apply in_combinations2 in Hc as [Hc1 Hc2].
    split; apply list_elem_of_In; assumption.
Qed.

End MoreFacts.

(** **** Instances *)

Lemma run_all_succeeds_only_empty_witness :
  fst (@run_all more_collaborators (mkAllParam "empty.yaml" false) more_world)
    = Ok tt /\
  exists text cfg,
    fs more_world !! "empty.yaml" = Some text /\
    @yaml_load more_collaborators text = Some cfg /\
    key_sets cfg = Ok (∅, ∅, ∅, ∅).
Proof.
  split; [vm_compute; reflexivity|].
  apply (@run_all_succeeds_only_empty more_collaborators
           (mkAllParam "empty.yaml" false) more_world
           (snd (@run_all more_collaborators (mkAllParam "empty.yaml" false)
                   more_world))).
  - reflexivity.
  - vm_compute. reflexivity.
Defined.

Lemma split_entry_round_trip_witness :
  split_entry ("snp " ++ "=" ++ " runs/snp.tsv  " ++ nl)
    = Ok ("snp ", " runs/snp.tsv").
Proof.
  exact (split_entry_round_trip "snp " (" runs/snp.tsv  " ++ nl)
           eq_refl eq_refl).
Defined.

Lemma visualize_ignores_directory_witness :
  @visualize more_collaborators example_outputs
    (mkVisualizeParam "snp.tsv" (Some "plots") "run1") more_world =
  @visualize more_collaborators example_outputs
    (mkVisualizeParam "snp.tsv" (Some "elsewhere") "run1") more_world.
Proof.
  apply (@visualize_ignores_directory more_collaborators example_outputs
           "snp.tsv" "run1" "plots" "elsewhere" more_world); discriminate.
Defined.

Lemma distance_unknown_type_witness :
  @distance more_collaborators example_outputs
    (mkDistanceParam "calls.txt" "WGS" "out.tsv") more_world =
    (Raise (KeyError "WGS"),
     mkWorld more_files [Log INFO "Creating distance matrix ..."]).
Proof.
  apply (@distance_unknown_type more_collaborators example_outputs
           (mkDistanceParam "calls.txt" "WGS" "out.tsv") more_world).
  apply (bool_decide_eq_false_1 _). vm_compute. reflexivity.
Defined.


Lemma run_all_scalar_fine_witness :
  exists msg,
    @run_all more_collaborators (mkAllParam "scalar.yaml" false) more_world =
      (Raise (AssertionError msg),
       mkWorld more_files ([] ++ [OpenRead "scalar.yaml"; YamlLoad])).
Proof.
  apply (@run_all_scalar_fine more_collaborators
           (mkAllParam "scalar.yaml" false) more_world "scalar"
           scalar_fine_config (set_of_strings ["SNP"]) (set_of_strings [])
           (set_of_strings ["SNP"]) (set_of_strings (chars "SNP")) "SNP").
  - reflexivity.
  - reflexivity.
  - reflexivity.
  - reflexivity.
  - reflexivity.
  - discriminate.
  - intros name Hin. unfold set_of_strings in Hin. simpl in Hin.
    rewrite !elem_of_union, elem_of_singleton in Hin.
    destruct Hin as [[Hin | Hin] | Hin].
    + inversion Hin. discriminate.
    + apply not_elem_of_empty in Hin. destruct Hin.
    + apply not_elem_of_empty in Hin. destruct Hin.
Defined.


Lemma consensus_column_mismatch_witness :
  @consensus more_collaborators
    (mkConsensusParam "mismatch.txt" "clusterings.txt" "fine.txt" "out.tsv"
       false) more_world =
    (Raise (AssertionError ""),
     mkWorld more_files
       [Log INFO "Getting distance matrices ...";
        OpenRead "mismatch.txt";
        OpenDistanceFile (YStr "snp.tsv");
        OpenDistanceFile (YStr "mlst.tsv")]).
Proof.
  apply (@consensus_column_mismatch more_collaborators
           (mkConsensusParam "mismatch.txt" "clusterings.txt" "fine.txt"
              "out.tsv" false) more_world
           ("snp=snp.tsv" ++ nl ++ "mlst=mlst.tsv" ++ nl)%string
           [("snp", "snp.tsv", example_matrix);
            ("mlst", "mlst.tsv", other_matrix)]
           "snp" "mlst").
  - reflexivity.
  - constructor; [split; reflexivity|].
    constructor; [split; reflexivity | constructor].
  - left. reflexivity.
  - vm_compute. discriminate.
Defined.

Lemma distance_writes_built_matrix_witness :
  (exists reader create calls,
     In ("SNP", reader) (@read_genotyping_calls more_collaborators) /\
     In ("SNP", create) (@create_genotype_distance more_collaborators) /\
     reader (YStr "calls.txt") more_files = Ok calls /\
     ((@returns_none more_collaborators example_outputs "SNP" calls = true /\
       mkWorld (<["out.tsv" := "A,B,C,D"]> more_files)
         [Log INFO "Creating distance matrix ...";
          ReadCalls "SNP" (YStr "calls.txt"); CreateDistance "SNP";
          Log INFO "Writing distance matrix ...";
          Log INFO "Distance matrix creation complete!"] =
       mkWorld more_files
         ([] ++
          [Log INFO "Creating distance matrix ...";
           ReadCalls "SNP" (YStr "calls.txt"); CreateDistance "SNP"])) \/
      (@returns_none more_collaborators example_outputs "SNP" calls = false /\
       exists m,
         create calls = Ok m /\
         @write_distance_matrix more_collaborators example_outputs m
           (YStr "out.tsv") more_files =
           Ok (<["out.tsv" := "A,B,C,D"]> more_files) /\
         [Log INFO "Creating distance matrix ...";
          ReadCalls "SNP" (YStr "calls.txt"); CreateDistance "SNP";
          Log INFO "Writing distance matrix ...";
          Log INFO "Distance matrix creation complete!"] =
         [] ++
         [Log INFO "Creating distance matrix ...";
          ReadCalls "SNP" (YStr "calls.txt"); CreateDistance "SNP";
          Log INFO "Writing distance matrix ...";
          Log INFO "Distance matrix creation complete!"]))) /\
  (exists reader create calls,
     In ("CNV", reader) (@read_genotyping_calls more_collaborators) /\
     In ("CNV", create) (@create_genotype_distance more_collaborators) /\
     reader (YStr "calls.txt") more_files = Ok calls /\
     ((@returns_none more_collaborators example_outputs "CNV" calls = true /\
       mkWorld more_files
         [Log INFO "Creating distance matrix ...";
          ReadCalls "CNV" (YStr "calls.txt"); CreateDistance "CNV"] =
       mkWorld more_files
         ([] ++
          [Log INFO "Creating distance matrix ...";
           ReadCalls "CNV" (YStr "calls.txt"); CreateDistance "CNV"])) \/
      (@returns_none more_collaborators example_outputs "CNV" calls = false /\
       exists m,
         create calls = Ok m /\
         @write_distance_matrix more_collaborators example_outputs m
           (YStr "out.tsv") more_files = Ok more_files /\
         [Log INFO "Creating distance matrix ...";
          ReadCalls "CNV" (YStr "calls.txt"); CreateDistance "CNV"] =
         [] ++
         [Log INFO "Creating distance matrix ...";
          ReadCalls "CNV" (YStr "calls.txt"); CreateDistance "CNV";
          Log INFO "Writing distance matrix ...";
          Log INFO "Distance matrix creation complete!"]))).
Proof.
  split.
  - refine (@distance_writes_built_matrix more_collaborators example_outputs
              (mkDistanceParam "calls.txt" "SNP" "out.tsv") more_world
              (mkWorld (<["out.tsv" := "A,B,C,D"]> more_files)
                 [Log INFO "Creating distance matrix ...";
                  ReadCalls "SNP" (YStr "calls.txt"); CreateDistance "SNP";
                  Log INFO "Writing distance matrix ...";
                  Log INFO "Distance matrix creation complete!"]) _).
    reflexivity.
  - refine (@distance_writes_built_matrix more_collaborators example_outputs
              (mkDistanceParam "calls.txt" "CNV" "out.tsv") more_world
              (mkWorld more_files
                 [Log INFO "Creating distance matrix ...";
                  ReadCalls "CNV" (YStr "calls.txt"); CreateDistance "CNV"])
              _).
    reflexivity.
Defined.
